(** * The RLPx handshake responder of p2p/server.py

    A shallow embedding of [Server] (start, run, stop, receive_handshake)
    and of the module-level [decode_authentication], followed by the
    properties of the handshake flow that the specification states.

    The program is a sequence of calls to collaborators (the two auth
    decoders, the ECIES helpers, the handshake responder, the stream reader
    and writer, the peer pool).  Every call is recorded in a chronological
    trace so that statements such as "the extended decoder is not attempted"
    or "the ack is flushed before the secrets are derived" can be stated
    about the run itself.

    - A coroutine is a function of the state that returns, raises or stays
      suspended; what it did before an exception stays done.
    - The collaborators whose code is not part of the sources are the fields
      of a class; the properties hold for every instance of it.
    - The inbound side of a connection is the buffer of the stream reader,
      the segments still to arrive and what ends them; [read] follows
      [asyncio.StreamReader.read].
    - Integers are Python integers ([Z]); byte strings are lists of bytes. *)

From Stdlib Require Import ZArith List Bool Lia.
From Stdlib.Strings Require Import String Byte.
Import ListNotations.
Local Open Scope Z_scope.

(** ** Bytes and Python integers *)

Definition bytes := list byte.

(** [len(b)] as a Python integer. *)
Definition len {A : Type} (l : list A) : Z := Z.of_nat (List.length l).

(** [eth_utils.big_endian_to_int], that is [int.from_bytes(value, 'big')]. *)
Definition big_endian_to_int (value : bytes) : Z :=
  fold_left (fun acc b => acc * 256 + Z.of_N (Byte.to_N b)) value 0.

(** ** Exceptions and outcomes *)

(** The exception classes that matter to the control flow.  The only class
    the source catches is [DecryptionError]; the only exception it raises
    itself is the [ValueError] of a too short auth message.  Every other
    class is named by a string. *)
Inductive exn : Type :=
| AuthMsgTooShort (n : Z)   (* ValueError("Auth msg too short: {}".format(n)) *)
| DecryptionError           (* p2p.exceptions.DecryptionError *)
| OtherError (cls : string).

Definition is_DecryptionError (e : exn) : bool :=
  match e with DecryptionError => true | _ => false end.

(** Result of a synchronous call: a value or a raised exception. *)
Inductive result (A : Type) : Type :=
| Ok (a : A)
| Err (e : exn).
Arguments Ok {A} a.
Arguments Err {A} e.

(** Result of a coroutine: it returns, raises, or stays suspended on an
    [await] that is never resumed. *)
Inductive outcome (A : Type) : Type :=
| Return (a : A)
| Raise (e : exn)
| Blocked.
Arguments Return {A} a.
Arguments Raise {A} e.
Arguments Blocked {A}.

(** ** A state monad in which effects survive an exception *)

Definition M (S A : Type) : Type := S -> outcome A * S.

Definition ret {S A : Type} (a : A) : M S A := fun s => (Return a, s).

Definition bind {S A B : Type} (m : M S A) (k : A -> M S B) : M S B :=
  fun s =>
    match m s with
    | (Return a, s') => k a s'
    | (Raise e, s') => (Raise e, s')
    | (Blocked, s') => (Blocked, s')
    end.

Definition raise {S A : Type} (e : exn) : M S A := fun s => (Raise e, s).

Definition gets {S A : Type} (f : S -> A) : M S A := fun s => (Return (f s), s).

Definition modify {S : Type} (f : S -> S) : M S unit := fun s => (Return tt, f s).

Definition lift_result {S A : Type} (r : result A) : M S A :=
  match r with
  | Ok a => ret a
  | Err e => raise e
  end.

(** [try: body  except DecryptionError: handler]. *)
Definition try_except_DecryptionError {S A : Type} (body handler : M S A) : M S A :=
  fun s =>
    match body s with
    | (Raise e, s') => if is_DecryptionError e then handler s' else (Raise e, s')
    | other => other
    end.

Declare Scope py_scope.
Delimit Scope py_scope with py.
Notation "x <- m ;; k" := (bind m (fun x => k))
  (at level 100, m at next level, right associativity) : py_scope.
Notation "' p <- m ;; k" := (bind m (fun x => match x with p => k end))
  (at level 100, p pattern, m at next level, right associativity) : py_scope.
Notation "m ;; k" := (bind m (fun _ => k))
  (at level 100, right associativity) : py_scope.
Local Open Scope py_scope.

(** ** asyncio.StreamReader *)

(** What the peer does once the bytes in flight are consumed: it closes its
    side, the connection breaks, or it keeps the connection open and sends
    nothing more. *)
Inductive stream_end : Type :=
| Eof
| Broken (e : exn)
| Open.

(** [buffer] holds the bytes already received; [incoming] the segments that
    arrive later, in order; [at_end] what follows them. *)
Record StreamReader : Type := mkReader {
  buffer : bytes;
  incoming : list bytes;
  at_end : stream_end
}.

(** Every byte the peer sends on this connection, in order. *)
Definition pending (r : StreamReader) : bytes := buffer r ++ List.concat (incoming r).

(** [feed_data] ignores empty segments. *)
Fixpoint next_segment (segs : list bytes) : option (bytes * list bytes) :=
  match segs with
  | [] => None
  | [] :: rest => next_segment rest
  | seg :: rest => Some (seg, rest)
  end.

(** The bytes a read issued now would find: the buffer, or when it is empty
    the next segment to arrive. *)
Definition available (r : StreamReader) : bytes :=
  match buffer r with
  | [] => match next_segment (incoming r) with
          | Some (seg, _) => seg
          | None => []
          end
  | _ => buffer r
  end.

(** [await StreamReader.read(n)]:
    - [n = 0] returns [b''] at once;
    - [n < 0] reads until EOF and returns everything;
    - [n > 0] waits until the buffer is not empty or EOF is reached, then
      returns at most [n] bytes of the buffer. *)
Definition read (n : Z) (r : StreamReader) : outcome bytes * StreamReader :=
  if n =? 0 then (Return [], r)
  else if n <? 0 then
    match at_end r with
    | Eof => (Return (pending r), mkReader [] [] Eof)
    | Broken e => (Raise e, mkReader [] [] (Broken e))
    | Open => (Blocked, mkReader (pending r) [] Open)
    end
  else
    match buffer r with
    | [] =>
        match next_segment (incoming r) with
        | Some (seg, rest) =>
            (Return (firstn (Z.to_nat n) seg),
             mkReader (skipn (Z.to_nat n) seg) rest (at_end r))
        | None =>
            match at_end r with
            | Eof => (Return [], mkReader [] [] Eof)
            | Broken e => (Raise e, mkReader [] [] (Broken e))
            | Open => (Blocked, mkReader [] [] Open)
            end
        end
    | buf =>
        (Return (firstn (Z.to_nat n) buf),
         mkReader (skipn (Z.to_nat n) buf) (incoming r) (at_end r))
    end.

(** ** asyncio.StreamWriter *)

(** [peername] is what [get_extra_info("peername")] returns: [None], or a
    tuple [(ip, port)] for IPv4 and [(ip, port, flowinfo, scope_id)] for
    IPv6.  [written] accumulates the bytes handed to [write]; [drain_fault]
    is the exception [drain] raises when the connection is lost. *)
Record StreamWriter : Type := mkWriter {
  peername : option (string * Z * list Z);
  written : bytes;
  drain_fault : option exn
}.

(** ** p2p.kademlia *)

(** Modelled from the spec: p2p/kademlia.py is not part of the sources; an
    endpoint identity is an IP address plus a TCP port, and a remote node is
    a public key bound to an endpoint identity. *)
Record Address : Type := mkAddress {
  ip : string;
  tcp_port : Z
}.

Record Node (PublicKey : Type) : Type := mkNode {
  pubkey : PublicKey;
  address : Address
}.
Arguments mkNode {PublicKey} pubkey address.
Arguments pubkey {PublicKey} n.
Arguments address {PublicKey} n.

(** ** Collaborators imported by p2p/server.py *)

(** The interface of the modules the server imports and whose code is not
    part of the sources: [eth_keys.datatypes], [p2p.constants], [p2p.auth],
    [p2p.ecies], [p2p.utils], [evm.db.chain].  Each function may raise. *)
Class Collaborators : Type := {
  PrivateKey : Type;
  PublicKey : Type;
  Signature : Type;
  MacState : Type;
  AsyncChainDB : Type;
  HandshakeResponderObj : Type;
  (* p2p.constants *)
  ENCRYPTED_AUTH_MSG_LEN : Z;
  HASH_LEN : Z;
  (* p2p.auth: (signature, initiator pubkey, initiator nonce, version) *)
  decode_auth_plain : bytes -> PrivateKey -> result (Signature * PublicKey * bytes * Z);
  decode_auth_eip8 : bytes -> PrivateKey -> result (Signature * PublicKey * bytes * Z);
  (* p2p.ecies, p2p.utils *)
  ecdh_agree : PrivateKey -> PublicKey -> result bytes;
  sxor : bytes -> bytes -> result bytes;
  (* eth_keys.datatypes.Signature *)
  recover_public_key_from_msg_hash : Signature -> bytes -> result PublicKey;
  (* p2p.auth.HandshakeResponder *)
  HandshakeResponder : Node PublicKey -> PrivateKey -> result HandshakeResponderObj;
  create_auth_ack_message : HandshakeResponderObj -> bytes -> result bytes;
  encrypt_auth_ack_message : HandshakeResponderObj -> bytes -> result bytes;
  derive_secrets :
    HandshakeResponderObj -> bytes -> bytes -> PublicKey -> bytes -> bytes ->
    result (bytes * bytes * MacState * MacState)
}.

Section Server.

Context {C : Collaborators}.

(** ** p2p.peer *)

(** The keyword arguments of the [ETHPeer] constructor.  [reader] and
    [writer] are the two ends of the accepted connection, identified by its
    descriptor. *)
Record ETHPeer : Type := mkETHPeer {
  remote : Node PublicKey;
  peer_privkey : PrivateKey;
  peer_reader : nat;
  peer_writer : nat;
  aes_secret : bytes;
  mac_secret : bytes;
  egress_mac : MacState;
  ingress_mac : MacState;
  peer_chaindb : AsyncChainDB;
  peer_network_id : Z
}.

(** Modelled from the spec: p2p/peer.py is not part of the sources; the peer
    registry accepts a fully-keyed peer object ([register]) and can be asked
    to stop ([stop]). *)
Record PeerPool : Type := mkPeerPool {
  connected_nodes : list ETHPeer;
  pool_stopped : bool
}.

(** ** Events *)

Inductive event : Type :=
| Call_decode_auth_plain (ciphertext : bytes) (privkey : PrivateKey)
| Call_decode_auth_eip8 (ciphertext : bytes) (privkey : PrivateKey)
| Call_ecdh_agree (privkey : PrivateKey) (pubkey : PublicKey)
| Call_sxor (s1 s2 : bytes)
| Call_recover_public_key_from_msg_hash (sig : Signature) (msg_hash : bytes)
| Reader_read (n : Z)
| Writer_get_extra_info_peername
| New_HandshakeResponder (remote : Node PublicKey) (privkey : PrivateKey)
| Secrets_token_bytes (n : Z)
| Call_create_auth_ack_message (nonce : bytes)
| Call_encrypt_auth_ack_message (ack_msg : bytes)
| Writer_write (data : bytes)
| Writer_drain
| Call_derive_secrets (initiator_nonce responder_nonce : bytes)
    (remote_ephemeral_pubkey : PublicKey)
    (auth_init_ciphertext auth_ack_ciphertext : bytes)
| New_ETHPeer (peer : ETHPeer)
| PeerPool_add_peer (peer : ETHPeer)
| Logger_info (text : string)
| Asyncio_start_server (host : string) (port : Z)
| CancelToken_wait
| CancelToken_trigger
| Server_close
| Server_wait_closed
| PeerPool_stop.

(** A synchronous call to a collaborator: recorded, then its result. *)
Definition call {A : Type} (e : event) (r : result A) : M (list event) A :=
  modify (fun t => t ++ [e]) ;; lift_result r.

(** ** decode_authentication *)

Definition decode_authentication (ciphertext : bytes) (privkey : PrivateKey)
  : M (list event) (PublicKey * bytes * PublicKey) :=
  '(sig, initiator_pubkey, initiator_nonce, _) <-
    (if len ciphertext <? ENCRYPTED_AUTH_MSG_LEN then
       raise (AuthMsgTooShort (len ciphertext))
     else if len ciphertext =? ENCRYPTED_AUTH_MSG_LEN then
       call (Call_decode_auth_plain ciphertext privkey)
            (decode_auth_plain ciphertext privkey)
     else
       call (Call_decode_auth_eip8 ciphertext privkey)
            (decode_auth_eip8 ciphertext privkey)) ;;
  shared_secret <-
    call (Call_ecdh_agree privkey initiator_pubkey)
         (ecdh_agree privkey initiator_pubkey) ;;
  msg_hash <-
    call (Call_sxor shared_secret initiator_nonce)
         (sxor shared_secret initiator_nonce) ;;
  ephem_pubkey <-
    call (Call_recover_public_key_from_msg_hash sig msg_hash)
         (recover_public_key_from_msg_hash sig msg_hash) ;;
  ret (ephem_pubkey, initiator_nonce, initiator_pubkey).

(** ** Server state *)

(** The [asyncio] server object returned by [asyncio.start_server]:
    [close()] stops the listening, [wait_closed()] returns once the sockets
    are released. *)
Inductive listener : Type :=
| Listening
| Closing
| Closed.

Definition listener_close (l : listener) : listener :=
  match l with
  | Listening => Closing
  | other => other
  end.

(** Modelled from the spec: p2p/cancel_token.py is not part of the sources; a
    cancellation token is a one-shot signal with [trigger()] and [wait()],
    and once triggered it stays triggered. *)
Record CancelToken : Type := mkCancelToken {
  token_name : string;
  triggered : bool
}.

(** The attributes of [Server].  [_server] is the class attribute
    initialised to [None]. *)
Record Server : Type := mkServer {
  cancel_token : CancelToken;
  chaindb : AsyncChainDB;
  privkey : PrivateKey;
  server_address : Address;
  network_id : Z;
  peer_pool : PeerPool;
  _server : option listener
}.

(** [Server.__init__].  The discovery protocol only parametrises the peer
    pool, whose registry starts empty. *)
Definition init (privkey : PrivateKey) (server_address : Address)
    (chaindb : AsyncChainDB) (bootstrap_nodes : list string) (network_id : Z)
  : Server :=
  {| cancel_token := mkCancelToken "Server" false;
     chaindb := chaindb;
     privkey := privkey;
     server_address := server_address;
     network_id := network_id;
     peer_pool := mkPeerPool [] false;
     _server := None |}.

(** An accepted connection: the pair [(reader, writer)] handed to the
    callback.  [os_random] is the byte sequence the operating system's random
    source hands to the one [secrets.token_bytes] call of this handshake. *)
Record Connection : Type := mkConnection {
  fd : nat;
  reader : StreamReader;
  writer : StreamWriter;
  os_random : nat -> byte
}.

(** The state a method runs in: the server object, the connection of the
    running handshake, the answer of the operating system to a request to
    listen on the server address, and the trace of the run. *)
Record World : Type := mkWorld {
  self : Server;
  conn : Connection;
  bind_fault : option exn;
  trace : list event
}.

Definition set_trace (t : list event) (w : World) : World :=
  mkWorld (self w) (conn w) (bind_fault w) t.

Definition set_self (s : Server) (w : World) : World :=
  mkWorld s (conn w) (bind_fault w) (trace w).

Definition set_conn (c : Connection) (w : World) : World :=
  mkWorld (self w) c (bind_fault w) (trace w).

Definition set_reader (r : StreamReader) (c : Connection) : Connection :=
  mkConnection (fd c) r (writer c) (os_random c).

Definition set_writer (x : StreamWriter) (c : Connection) : Connection :=
  mkConnection (fd c) (reader c) x (os_random c).

Definition set_cancel_token (t : CancelToken) (s : Server) : Server :=
  mkServer t (chaindb s) (privkey s) (server_address s) (network_id s)
           (peer_pool s) (_server s).

Definition set_peer_pool (p : PeerPool) (s : Server) : Server :=
  mkServer (cancel_token s) (chaindb s) (privkey s) (server_address s)
           (network_id s) p (_server s).

Definition set__server (l : option listener) (s : Server) : Server :=
  mkServer (cancel_token s) (chaindb s) (privkey s) (server_address s)
           (network_id s) (peer_pool s) l.

(** ** Primitive operations on the world *)

Definition log_event (e : event) : M World unit :=
  modify (fun w => set_trace (trace w ++ [e]) w).

(** A module-level function or a collaborator: it sees the trace only. *)
Definition pure_call {A : Type} (m : M (list event) A) : M World A :=
  fun w => let (r, t) := m (trace w) in (r, set_trace t w).

Definition reader_read (n : Z) : M World bytes :=
  log_event (Reader_read n) ;;
  (fun w =>
     let (r, rd) := read n (reader (conn w)) in
     (r, set_conn (set_reader rd (conn w)) w)).

(** [ip, port, *_ = writer.get_extra_info("peername")]; unpacking [None]
    raises [TypeError]. *)
Definition writer_get_extra_info_peername : M World (string * Z) :=
  log_event Writer_get_extra_info_peername ;;
  info <- gets (fun w => peername (writer (conn w))) ;;
  match info with
  | Some (ip, port, _) => ret (ip, port)
  | None => raise (OtherError "TypeError")
  end.

(** [secrets.token_bytes(n)]: [n] random bytes, [ValueError] when [n] is
    negative. *)
Definition secrets_token_bytes (n : Z) : M World bytes :=
  log_event (Secrets_token_bytes n) ;;
  if n <? 0 then raise (OtherError "ValueError")
  else
    rnd <- gets (fun w => os_random (conn w)) ;;
    ret (map rnd (seq 0 (Z.to_nat n))).

Definition writer_write (data : bytes) : M World unit :=
  log_event (Writer_write data) ;;
  modify (fun w =>
    let wr := writer (conn w) in
    set_conn (set_writer (mkWriter (peername wr) (written wr ++ data) (drain_fault wr))
                         (conn w)) w).

Definition writer_drain : M World unit :=
  log_event Writer_drain ;;
  fault <- gets (fun w => drain_fault (writer (conn w))) ;;
  match fault with
  | Some e => raise e
  | None => ret tt
  end.

(** Modelled from the spec: p2p/peer.py is not part of the sources.  The
    registry accepts the peer and registration does not fail; the pool is
    kept as the list of the peers in the order of their registration. *)
Definition peer_pool_add_peer (peer : ETHPeer) : M World unit :=
  log_event (PeerPool_add_peer peer) ;;
  modify (fun w =>
    let pool := peer_pool (self w) in
    set_self (set_peer_pool (mkPeerPool (connected_nodes pool ++ [peer])
                                        (pool_stopped pool)) (self w)) w).

(** Modelled from the spec: the registry can be asked to stop.  Only that
    it was asked is recorded; what stopping does to the registered peers,
    and how long it takes, is the registry's. *)
Definition peer_pool_stop : M World unit :=
  log_event PeerPool_stop ;;
  modify (fun w =>
    let pool := peer_pool (self w) in
    set_self (set_peer_pool (mkPeerPool (connected_nodes pool) true) (self w)) w).

Definition cancel_token_trigger : M World unit :=
  log_event CancelToken_trigger ;;
  modify (fun w =>
    let tok := cancel_token (self w) in
    set_self (set_cancel_token (mkCancelToken (token_name tok) true) (self w)) w).

(** [await self.cancel_token.wait()] returns once the token is triggered. *)
Definition cancel_token_wait : M World unit :=
  log_event CancelToken_wait ;;
  is_set <- gets (fun w => triggered (cancel_token (self w))) ;;
  if is_set then ret tt else (fun w => (Blocked, w)).

(** [self._server.<method>]: the attribute lookup on [None] raises
    [AttributeError] before the method is called. *)
Definition get__server : M World listener :=
  handle <- gets (fun w => _server (self w)) ;;
  match handle with
  | Some l => ret l
  | None => raise (OtherError "AttributeError")
  end.

Definition server_close : M World unit :=
  l <- get__server ;;
  log_event Server_close ;;
  modify (fun w => set_self (set__server (Some (listener_close l)) (self w)) w).

Definition server_wait_closed : M World unit :=
  l <- get__server ;;
  log_event Server_wait_closed ;;
  match l with
  | Listening => (fun w => (Blocked, w))
  | _ => modify (fun w => set_self (set__server (Some Closed) (self w)) w)
  end.

Definition asyncio_start_server (host : string) (port : Z) : M World listener :=
  log_event (Asyncio_start_server host port) ;;
  fault <- gets bind_fault ;;
  match fault with
  | Some e => raise e
  | None => ret Listening
  end.

(** ** Server.receive_handshake *)

Definition receive_handshake : M World unit :=
  msg <- reader_read ENCRYPTED_AUTH_MSG_LEN ;;
  self_privkey <- gets (fun w => privkey (self w)) ;;
  '(ephem_pubkey, initiator_nonce, initiator_pubkey, msg) <-
    try_except_DecryptionError
      (decoded <- pure_call (decode_authentication msg self_privkey) ;;
       ret (decoded, msg))
      (let msg_size := big_endian_to_int (firstn 2 msg) in
       let remaining_bytes := msg_size - ENCRYPTED_AUTH_MSG_LEN + 2 in
       extra <- reader_read remaining_bytes ;;
       let msg := msg ++ extra in
       decoded <- pure_call (decode_authentication msg self_privkey) ;;
       ret (decoded, msg)) ;;
  '(ip, port) <- writer_get_extra_info_peername ;;
  let remote_address := mkAddress ip port in
  let initiator_remote := mkNode initiator_pubkey remote_address in
  responder <-
    pure_call (call (New_HandshakeResponder initiator_remote self_privkey)
                    (HandshakeResponder initiator_remote self_privkey)) ;;
  responder_nonce <- secrets_token_bytes HASH_LEN ;;
  auth_ack_msg <-
    pure_call (call (Call_create_auth_ack_message responder_nonce)
                    (create_auth_ack_message responder responder_nonce)) ;;
  auth_ack_ciphertext <-
    pure_call (call (Call_encrypt_auth_ack_message auth_ack_msg)
                    (encrypt_auth_ack_message responder auth_ack_msg)) ;;
  writer_write auth_ack_ciphertext ;;
  writer_drain ;;
  '(aes_secret, mac_secret, egress_mac, ingress_mac) <-
    pure_call (call (Call_derive_secrets initiator_nonce responder_nonce
                       ephem_pubkey msg auth_ack_ciphertext)
                    (derive_secrets responder initiator_nonce responder_nonce
                       ephem_pubkey msg auth_ack_ciphertext)) ;;
  self_chaindb <- gets (fun w => chaindb (self w)) ;;
  self_network_id <- gets (fun w => network_id (self w)) ;;
  sock <- gets (fun w => fd (conn w)) ;;
  let eth_peer :=
    mkETHPeer initiator_remote self_privkey sock sock aes_secret mac_secret
              egress_mac ingress_mac self_chaindb self_network_id in
  log_event (New_ETHPeer eth_peer) ;;
  peer_pool_add_peer eth_peer.

(** ** Server.start, Server.stop, Server.run *)

Definition start : M World unit :=
  addr <- gets (fun w => server_address (self w)) ;;
  l <- asyncio_start_server (ip addr) (tcp_port addr) ;;
  modify (fun w => set_self (set__server (Some l) (self w)) w).

Definition stop : M World unit :=
  log_event (Logger_info "Closing server...") ;;
  cancel_token_trigger ;;
  server_close ;;
  server_wait_closed ;;
  peer_pool_stop.

Definition run : M World unit :=
  start ;;
  log_event (Logger_info "Running server...") ;;
  cancel_token_wait ;;
  stop.

(** * Observations on a run *)

(** The definitions below are what the properties are stated with: the
    calls of a run by kind, the two phases of [receive_handshake], and the
    recovery step as the specification words it. *)

Definition is_decoder_call (e : event) : bool :=
  match e with
  | Call_decode_auth_plain _ _ | Call_decode_auth_eip8 _ _ => true
  | _ => false
  end.

Definition is_eip8_call (e : event) : bool :=
  match e with
  | Call_decode_auth_eip8 _ _ => true
  | _ => false
  end.

(** The result and the calls of [decode_authentication], which depend on
    its two arguments only. *)
Definition decode_result (ct : bytes) (k : PrivateKey) :=
  fst (decode_authentication ct k []).

Definition decode_calls (ct : bytes) (k : PrivateKey) : list event :=
  snd (decode_authentication ct k []).

(** The decoder selected by the length of the ciphertext, as a call and as
    its result. *)
Definition decoder_call (ct : bytes) (k : PrivateKey) : event :=
  if len ct =? ENCRYPTED_AUTH_MSG_LEN then Call_decode_auth_plain ct k
  else Call_decode_auth_eip8 ct k.

Definition decoder_result (ct : bytes) (k : PrivateKey) :=
  if len ct =? ENCRYPTED_AUTH_MSG_LEN then decode_auth_plain ct k
  else decode_auth_eip8 ct k.

(** The recovery as the specification words it, for a given hash function:
    the XOR of the shared secret and the nonce is hashed, and the key is
    recovered from the signature against that hash. *)
Definition decode_authentication_spec (hash : bytes -> bytes)
    (ct : bytes) (k : PrivateKey) : outcome (PublicKey * bytes * PublicKey) :=
  if len ct <? ENCRYPTED_AUTH_MSG_LEN then Raise (AuthMsgTooShort (len ct))
  else
    match decoder_result ct k with
    | Err e => Raise e
    | Ok (sig, initiator_pubkey, initiator_nonce, _) =>
        match ecdh_agree k initiator_pubkey with
        | Err e => Raise e
        | Ok shared_secret =>
            match sxor shared_secret initiator_nonce with
            | Err e => Raise e
            | Ok x =>
                match recover_public_key_from_msg_hash sig (hash x) with
                | Err e => Raise e
                | Ok ephem_pubkey =>
                    Return (ephem_pubkey, initiator_nonce, initiator_pubkey)
                end
            end
        end
    end.

(** Lines 98 to 131 of the source: the reply and the registration, as a
    function of the private key and of what the decoding phase produced. *)
Definition reply_and_register (self_privkey : PrivateKey)
    (decoded : PublicKey * bytes * PublicKey * bytes) : M World unit :=
  let '(ephem_pubkey, initiator_nonce, initiator_pubkey, msg) := decoded in
  '(ip, port) <- writer_get_extra_info_peername ;;
  let remote_address := mkAddress ip port in
  let initiator_remote := mkNode initiator_pubkey remote_address in
  responder <-
    pure_call (call (New_HandshakeResponder initiator_remote self_privkey)
                    (HandshakeResponder initiator_remote self_privkey)) ;;
  responder_nonce <- secrets_token_bytes HASH_LEN ;;
  auth_ack_msg <-
    pure_call (call (Call_create_auth_ack_message responder_nonce)
                    (create_auth_ack_message responder responder_nonce)) ;;
  auth_ack_ciphertext <-
    pure_call (call (Call_encrypt_auth_ack_message auth_ack_msg)
                    (encrypt_auth_ack_message responder auth_ack_msg)) ;;
  writer_write auth_ack_ciphertext ;;
  writer_drain ;;
  '(aes_secret, mac_secret, egress_mac, ingress_mac) <-
    pure_call (call (Call_derive_secrets initiator_nonce responder_nonce
                       ephem_pubkey msg auth_ack_ciphertext)
                    (derive_secrets responder initiator_nonce responder_nonce
                       ephem_pubkey msg auth_ack_ciphertext)) ;;
  self_chaindb <- gets (fun w => chaindb (self w)) ;;
  self_network_id <- gets (fun w => network_id (self w)) ;;
  sock <- gets (fun w => fd (conn w)) ;;
  let eth_peer :=
    mkETHPeer initiator_remote self_privkey sock sock aes_secret mac_secret
              egress_mac ingress_mac self_chaindb self_network_id in
  log_event (New_ETHPeer eth_peer) ;;
  peer_pool_add_peer eth_peer.

(** Lines 84 to 96: the read, the first decoding attempt and the retry. *)
Definition read_and_decode (self_privkey : PrivateKey) (msg : bytes)
  : M World (PublicKey * bytes * PublicKey * bytes) :=
  try_except_DecryptionError
    (decoded <- pure_call (decode_authentication msg self_privkey) ;;
     ret (decoded, msg))
    (let msg_size := big_endian_to_int (firstn 2 msg) in
     let remaining_bytes := msg_size - ENCRYPTED_AUTH_MSG_LEN + 2 in
     extra <- reader_read remaining_bytes ;;
     let msg := msg ++ extra in
     decoded <- pure_call (decode_authentication msg self_privkey) ;;
     ret (decoded, msg)).

Definition is_derive_call (e : event) : bool :=
  match e with
  | Call_derive_secrets _ _ _ _ _ => true
  | _ => false
  end.

Definition is_peer_event (e : event) : bool :=
  match e with
  | New_ETHPeer _ | PeerPool_add_peer _ => true
  | _ => false
  end.

Definition is_return {A : Type} (o : outcome A) : bool :=
  match o with
  | Return _ => true
  | _ => false
  end.

(** What a derivation of the secrets found in the new events [ev] of a run
    must look like: it comes right after the write and the drain of the very
    ack ciphertext it receives, and that ciphertext is what the run appended
    to the writer. *)
Definition derived_after_flush (ev : list event) (w w' : World)
    (initiator_nonce : bytes) (ephem_pubkey : PublicKey) (msg : bytes)
    (d : event) : Prop :=
  exists pre post responder_nonce ack,
    ev = pre ++ [Writer_write ack; Writer_drain; d] ++ post
    /\ d = Call_derive_secrets initiator_nonce responder_nonce ephem_pubkey msg ack
    /\ responder_nonce = map (os_random (conn w)) (seq 0 (Z.to_nat HASH_LEN))
    /\ In (Call_create_auth_ack_message responder_nonce) pre
    /\ written (writer (conn w')) = written (writer (conn w)) ++ ack
    /\ drain_fault (writer (conn w)) = None.

(** The world once the reader has become [rd] and the events [ev] have been
    recorded. *)
Definition world_after (w : World) (rd : StreamReader) (ev : list event) : World :=
  mkWorld (self w) (set_reader rd (conn w)) (bind_fault w) (trace w ++ ev).

(** The count passed to the second read. *)
Definition remaining_bytes (msg : bytes) : Z :=
  big_endian_to_int (firstn 2 msg) - ENCRYPTED_AUTH_MSG_LEN + 2.

Definition is_eof (e : stream_end) : bool :=
  match e with
  | Eof => true
  | _ => false
  end.

Definition is_decode_phase_event (e : event) : bool :=
  match e with
  | Reader_read _
  | Call_decode_auth_plain _ _ | Call_decode_auth_eip8 _ _
  | Call_ecdh_agree _ _ | Call_sxor _ _
  | Call_recover_public_key_from_msg_hash _ _ => true
  | _ => false
  end.

(** A run either ends in the decoding phase, without a result, or enters the
    reply phase with the bytes [msg] it has read and the values decoded from
    them. *)
Inductive handshake_shape (w : World) : outcome unit * World -> Prop :=
| ends_decoding out rd pre :
    is_return out = false ->
    forallb is_decode_phase_event pre = true ->
    handshake_shape w (out, world_after w rd pre)
| enters_reply rd pre msg decoded :
    forallb is_decode_phase_event pre = true ->
    pending (reader (conn w)) = msg ++ pending rd ->
    decode_result msg (privkey (self w)) = Return decoded ->
    handshake_shape w
      (reply_and_register (privkey (self w)) (decoded, msg) (world_after w rd pre)).

(** ** Further observations *)

Definition is_read_call (e : event) : bool :=
  match e with
  | Reader_read _ => true
  | _ => false
  end.

Definition is_write_call (e : event) : bool :=
  match e with
  | Writer_write _ => true
  | _ => false
  end.

(** The world once the events [ev] have been recorded and nothing else has
    changed. *)
Definition world_logged (w : World) (ev : list event) : World :=
  mkWorld (self w) (conn w) (bind_fault w) (trace w ++ ev).

(** The world in the reply phase: the writer has become [wr], the server
    [srv], and the events [ev] have been recorded. *)
Definition reply_world (w : World) (wr : StreamWriter) (srv : Server)
    (ev : list event) : World :=
  mkWorld srv (set_writer wr (conn w)) (bind_fault w) (trace w ++ ev).

(** The writer once [data] has been handed to [write]. *)
Definition wrote (wr : StreamWriter) (data : bytes) : StreamWriter :=
  mkWriter (peername wr) (written wr ++ data) (drain_fault wr).

(** The server with another cancellation token and another listening
    handle. *)
Definition with_lifecycle (tok : CancelToken) (l : option listener)
    (s : Server) : Server :=
  set__server l (set_cancel_token tok s).

(** The decoding phase yields [decoded] from the bytes [msg] of the
    connection: either the first read returns [msg] and the first attempt
    decodes it, or the first attempt raises a decryption error, the second
    read returns, and the second attempt decodes the concatenation.  Both
    cases are stated on the reader of the connection and on
    [decode_authentication] alone. *)
Inductive decoding_yields (w : World)
  : bytes -> PublicKey * bytes * PublicKey -> Prop :=
| first_attempt_decodes msg r1 decoded :
    read ENCRYPTED_AUTH_MSG_LEN (reader (conn w)) = (Return msg, r1) ->
    decode_result msg (privkey (self w)) = Return decoded ->
    decoding_yields w msg decoded
| second_attempt_decodes msg r1 extra r2 decoded :
    read ENCRYPTED_AUTH_MSG_LEN (reader (conn w)) = (Return msg, r1) ->
    decode_result msg (privkey (self w)) = Raise DecryptionError ->
    read (remaining_bytes msg) r1 = (Return extra, r2) ->
    decode_result (msg ++ extra) (privkey (self w)) = Return decoded ->
    decoding_yields w (msg ++ extra) decoded.

(** A run either ends in the decoding phase, in which case nothing decodes,
    or enters the reply phase with what the decoding phase yields. *)
Inductive handshake_run (w : World) : outcome unit * World -> Prop :=
| run_ends_decoding out rd pre :
    is_return out = false ->
    forallb is_decode_phase_event pre = true ->
    (forall msg decoded, ~ decoding_yields w msg decoded) ->
    handshake_run w (out, world_after w rd pre)
| run_enters_reply rd pre msg decoded :
    forallb is_decode_phase_event pre = true ->
    pending (reader (conn w)) = msg ++ pending rd ->
    decoding_yields w msg decoded ->
    handshake_run w
      (reply_and_register (privkey (self w)) (decoded, msg) (world_after w rd pre)).

End Server.

(** * A small instance to run the handshake on *)

(** Stand-ins for the collaborators, simple enough to evaluate: keys,
    signatures and MAC states are byte strings; a ciphertext is authentic
    when its last byte is the XOR of all the bytes before it, and decrypts
    when the ECIES marker [0x04] opens the body (after the two size bytes in
    the extended format); key agreement and key recovery are XORs.  They
    share with the real ones what the server relies on: the plain decoder
    rejects an extended message, the extended decoder rejects a truncated
    one, and neither compares the size bytes with the length received. *)
Module Toy.

Definition byte_xor (a b : byte) : byte :=
  match Byte.of_N (N.lxor (Byte.to_N a) (Byte.to_N b)) with
  | Some c => c
  | None => x00
  end.

Definition xor_bytes (a b : bytes) : bytes :=
  map (fun p => byte_xor (fst p) (snd p)) (combine a b).

Definition checksum (b : bytes) : byte := fold_left byte_xor b x00.

Definition seal (body : bytes) : bytes := body ++ [checksum body].

Definition authentic (ct : bytes) : bool :=
  match rev ct with
  | tag :: body => Byte.eqb tag (checksum body)
  | [] => false
  end.

(** Signature (65 bytes), public key (64), nonce (32), version. *)
Definition payload (body : bytes) : bytes * bytes * bytes * Z :=
  (firstn 65 body, firstn 64 (skipn 65 body), firstn 32 (skipn 129 body), 4).

Definition toy_decode_auth_plain (ct k : bytes)
  : result (bytes * bytes * bytes * Z) :=
  if authentic ct then
    match ct with
    | x04 :: body => Ok (payload body)
    | _ => Err DecryptionError
    end
  else Err DecryptionError.

Definition toy_decode_auth_eip8 (ct k : bytes)
  : result (bytes * bytes * bytes * Z) :=
  if authentic ct then
    match skipn 2 ct with
    | x04 :: body => Ok (payload body)
    | _ => Err DecryptionError
    end
  else Err DecryptionError.

Definition toy_sxor (s1 s2 : bytes) : result bytes :=
  if Nat.eqb (List.length s1) (List.length s2) then Ok (xor_bytes s1 s2)
  else Err (OtherError "ValueError").

Definition collaborators : Collaborators :=
  {| PrivateKey := bytes;
     PublicKey := bytes;
     Signature := bytes;
     MacState := bytes;
     AsyncChainDB := unit;
     HandshakeResponderObj := Node bytes * bytes;
     ENCRYPTED_AUTH_MSG_LEN := 307;
     HASH_LEN := 32;
     decode_auth_plain := toy_decode_auth_plain;
     decode_auth_eip8 := toy_decode_auth_eip8;
     ecdh_agree := fun k pub => Ok (xor_bytes k pub);
     sxor := toy_sxor;
     recover_public_key_from_msg_hash := fun sg h => Ok (xor_bytes sg (h ++ h));
     HandshakeResponder := fun remote k => Ok (remote, k);
     create_auth_ack_message := fun r nonce => Ok (snd r ++ snd r ++ nonce ++ [x00]);
     encrypt_auth_ack_message := fun r m => Ok (seal (x04 :: m));
     derive_secrets := fun r i_nonce r_nonce ephem init ack =>
       Ok (xor_bytes i_nonce r_nonce, xor_bytes r_nonce ephem,
           firstn 32 ack, firstn 32 init) |}.

(** A hash function that is not the identity: every byte is masked. *)
Definition masking_hash (b : bytes) : bytes := map (byte_xor x5c) b.

Definition local_privkey : bytes := repeat x11 32.
Definition signature : bytes := repeat x22 65.
Definition initiator_pubkey : bytes := repeat x33 64.
Definition initiator_nonce : bytes := repeat x44 32.

(** A plain auth message: 307 bytes. *)
Definition auth_plain : bytes :=
  seal (x04 :: signature ++ initiator_pubkey ++ initiator_nonce ++ repeat x00 144).

(** A plain auth message damaged in transit: 307 bytes that do not
    authenticate. *)
Definition auth_corrupt : bytes := x04 :: repeat xff 306.

(** An extended auth message of 357 bytes behind the given two size bytes. *)
Definition auth_eip8 (size_prefix : bytes) : bytes :=
  seal (size_prefix ++ x04 :: signature ++ initiator_pubkey ++ initiator_nonce
          ++ repeat x00 192).

(** The size bytes [0x0163] announce 355 bytes after them, 357 in all. *)
Definition auth_eip8_sized : bytes := auth_eip8 [x01; x63].

(** The size bytes [0x0010] announce 16 bytes: fewer than already read. *)
Definition auth_eip8_undersized : bytes := auth_eip8 [x00; x10].

(** The 307 bytes the first read returns of each extended message, and the
    reader it leaves behind. *)
Definition sized_head : bytes := firstn 307 auth_eip8_sized.

Definition sized_rest : StreamReader := mkReader (skipn 307 auth_eip8_sized) [] Open.

Definition undersized_head : bytes := firstn 307 auth_eip8_undersized.

Definition undersized_rest : StreamReader :=
  mkReader (skipn 307 auth_eip8_undersized) [] Eof.

Definition accepted (r : StreamReader) : Connection :=
  mkConnection 7 r (mkWriter (Some ("10.0.0.2"%string, 51000, [])) [] None)
               (fun _ => xa5).

(** A server as [Server.__init__] leaves it, and the same server once
    [start] has returned. *)
Definition new_server : @Server collaborators :=
  @init collaborators local_privkey (mkAddress "0.0.0.0" 30303) tt [] 1.

Definition w_not_started : @World collaborators :=
  mkWorld new_server (accepted (mkReader [] [] Open)) None [].

Definition started_server : @Server collaborators :=
  self (snd (@start collaborators w_not_started)).

(** The world in which the handshake of an accepted connection starts. *)
Definition world (r : StreamReader) : @World collaborators :=
  mkWorld started_server (accepted r) None [].

(** The connections of the runs below. *)
Definition w_plain : @World collaborators := world (mkReader auth_plain [] Open).

Definition w_corrupt : @World collaborators := world (mkReader auth_corrupt [] Eof).

Definition w_eip8 : @World collaborators := world (mkReader auth_eip8_sized [] Open).

(** The same extended message, whose last 30 bytes arrive in a later
    segment. *)
Definition w_segmented : @World collaborators :=
  world (mkReader (firstn 327 auth_eip8_sized) [skipn 327 auth_eip8_sized] Open).

Definition w_undersized : @World collaborators :=
  world (mkReader auth_eip8_undersized [] Eof).

(** Bytes a peer sends right after its auth message. *)
Definition first_frame : bytes := [xc0; x01; x02].

(** The plain and the extended message, each with [first_frame] behind it
    in the buffer. *)
Definition w_plain_followed : @World collaborators :=
  world (mkReader (auth_plain ++ first_frame) [] Open).

Definition w_eip8_followed : @World collaborators :=
  world (mkReader (auth_eip8_sized ++ first_frame) [] Open).

(** The plain message cut in two segments: 10 bytes, then the rest. *)
Definition w_plain_in_two : @World collaborators :=
  world (mkReader [] [firstn 10 auth_plain; skipn 10 auth_plain] Open).

(** A connection without peer name, and one whose flush fails. *)
Definition w_nameless : @World collaborators :=
  mkWorld started_server
    (mkConnection 7 (mkReader auth_plain [] Open) (mkWriter None [] None)
                  (fun _ => xa5))
    None [].

Definition w_reset : @World collaborators :=
  mkWorld started_server
    (mkConnection 7 (mkReader auth_plain [] Open)
       (mkWriter (Some ("10.0.0.2"%string, 51000, []))
                 [] (Some (OtherError "ConnectionResetError")))
       (fun _ => xa5))
    None [].

(** The ephemeral key the stand-ins recover from the payload above. *)
Definition ephemeral_pubkey : bytes :=
  let shared := xor_bytes local_privkey initiator_pubkey in
  let x := xor_bytes shared initiator_nonce in
  xor_bytes signature (x ++ x).

(** What the first read of [w_plain_in_two] returns and leaves. *)
Definition ten_bytes : bytes := firstn 10 auth_plain.

Definition after_ten_bytes : StreamReader :=
  mkReader [] [skipn 10 auth_plain] Open.

(** The damaged plain message on a connection the peer keeps open, and the
    same message arriving in two segments of 100 and 207 bytes. *)
Definition w_corrupt_open : @World collaborators :=
  world (mkReader auth_corrupt [] Open).

Definition w_corrupt_in_two : @World collaborators :=
  world (mkReader [] [firstn 100 auth_corrupt; skipn 100 auth_corrupt] Eof).

(** The responder nonce of the runs above, and the ack the stand-ins build
    and encrypt with it. *)
Definition responder_nonce : bytes := map (fun _ : nat => xa5) (seq 0 32).

Definition ack_message : bytes :=
  local_privkey ++ local_privkey ++ responder_nonce ++ [x00].

Definition ack_ciphertext : bytes := seal (x04 :: ack_message).

End Toy.

(** * Properties *)

Section Properties.

Context {C : Collaborators}.

(** ** Reading from the stream *)

Create HintDb run.
#[local] Hint Unfold bind ret raise gets modify lift_result call log_event pure_call
  try_except_DecryptionError : run.

Ltac run := autounfold with run; cbn [fst snd].

(** Case analysis on the scrutinee of the first [match] or [if] of the goal. *)
Ltac step :=
  match goal with
  | |- context [match ?x with _ => _ end] =>
      lazymatch x with
      | context [match _ with _ => _ end] => fail
      | _ => destruct x eqn:?
      end
  end.

(** Traces are compared as right-nested lists. *)
Ltac norm_trace :=
  repeat (progress (rewrite <- ?app_assoc, <- ?app_comm_cons; cbn [app])).

Lemma len_app (a b : bytes) : len (a ++ b) = len a + len b.
Proof. unfold len. rewrite length_app. lia. Qed.

Lemma len_nonneg {A : Type} (l : list A) : 0 <= len l.
Proof. unfold len. lia. Qed.

Lemma len_nil_inv {A : Type} (l : list A) : len l = 0 -> l = [].
Proof. destruct l; [reflexivity | unfold len; cbn; lia]. Qed.

Lemma next_segment_concat segs seg rest :
  next_segment segs = Some (seg, rest) ->
  List.concat segs = seg ++ List.concat rest /\ seg <> [].
Proof.
  induction segs as [| s segs IH]; cbn; [discriminate |].
  destruct s as [| b s].
  - intros H. apply IH in H. exact H.
  - intros H. injection H as <- <-. split; [reflexivity | discriminate].
Qed.

Lemma next_segment_none segs :
  next_segment segs = None -> List.concat segs = [].
Proof.
  induction segs as [| s segs IH]; cbn; [reflexivity |].
  destruct s; [exact IH | discriminate].
Qed.

(** A read hands over a prefix of the bytes still to come and leaves the
    rest in place. *)
Lemma read_pending n r d r' :
  read n r = (Return d, r') -> pending r = d ++ pending r'.
Proof.
  unfold read, pending.
  destruct (n =? 0).
  { intros H; injection H as <- <-. reflexivity. }
  destruct (n <? 0).
  { destruct (at_end r); intros H; try discriminate.
    injection H as <- <-. cbn. now rewrite !app_nil_r. }
  destruct (buffer r) as [| b buf] eqn:Hb.
  - destruct (next_segment (incoming r)) as [[seg rest] |] eqn:Hs.
    + intros H; injection H as <- <-. cbn [buffer incoming].
      apply next_segment_concat in Hs as [-> _].
      cbn [app]. now rewrite app_assoc, firstn_skipn.
    + apply next_segment_none in Hs.
      destruct (at_end r); intros H; try discriminate.
      injection H as <- <-. now rewrite Hs.
  - intros H; injection H as <- <-. cbn [buffer incoming].
    now rewrite app_assoc, firstn_skipn.
Qed.


(** When the bytes requested have all arrived the read returns exactly
    them. *)
Lemma read_exact n r :
  0 < n -> n <= len (available r) ->
  exists r', read n r = (Return (firstn (Z.to_nat n) (available r)), r')
             /\ len (firstn (Z.to_nat n) (available r)) = n.
Proof.
  intros Hn Ha. unfold read.
  destruct (n =? 0) eqn:E0; [lia |].
  destruct (n <? 0) eqn:E1; [lia |].
  assert (Hf : len (firstn (Z.to_nat n) (available r)) = n).
  { unfold len in *. rewrite length_firstn. lia. }
  revert Ha Hf. unfold available.
  destruct (buffer r).
  - destruct (next_segment (incoming r)) as [[seg rest] |].
    + intros _ Hf. eexists. split; [reflexivity | exact Hf].
    + unfold len; cbn; lia.
  - intros _ Hf. eexists. split; [reflexivity | exact Hf].
Qed.

Lemma concat_nil_next_segment segs :
  List.concat segs = [] -> next_segment segs = None.
Proof.
  induction segs as [| s segs IH]; cbn; [reflexivity |].
  destruct s; cbn; [exact IH | discriminate].
Qed.

Lemma available_prefix r : exists rest, pending r = available r ++ rest.
Proof.
  unfold pending, available. destruct (buffer r) as [| b buf].
  - destruct (next_segment (incoming r)) as [[seg rest] |] eqn:E.
    + apply next_segment_concat in E as [-> _]. eexists. reflexivity.
    + exists (List.concat (incoming r)). reflexivity.
  - eexists. reflexivity.
Qed.

(** A message that has arrived in one piece is returned whole by a read of
    its length, and nothing is left to read. *)
Lemma read_whole n r :
  len (available r) = n -> len (pending r) = n ->
  exists r1, read n r = (Return (pending r), r1)
             /\ pending r1 = [] /\ at_end r1 = at_end r.
Proof.
  intros Ha Hp.
  destruct (available_prefix r) as [rest Hrest].
  assert (Hnil : rest = []).
  { apply len_nil_inv. rewrite Hrest, len_app in Hp. lia. }
  subst rest. rewrite app_nil_r in Hrest.
  unfold read. destruct (n =? 0) eqn:E0.
  { apply Z.eqb_eq in E0. subst n. rewrite E0 in Hp. apply len_nil_inv in Hp.
    rewrite Hp. exists r. auto. }
  destruct (n <? 0) eqn:E1.
  { apply Z.ltb_lt in E1. pose proof (len_nonneg (pending r)). lia. }
  assert (Hf : firstn (Z.to_nat n) (pending r) = pending r).
  { apply firstn_all2. unfold len in Hp. lia. }
  assert (Hs : skipn (Z.to_nat n) (pending r) = []).
  { apply skipn_all2. unfold len in Hp. lia. }
  revert Hrest. unfold available, pending.
  destruct (buffer r) as [| b buf] eqn:Hb.
  - destruct (next_segment (incoming r)) as [[seg rest] |] eqn:E.
    + cbn [app]. intros Hrest. unfold pending in Hf, Hs.
      rewrite Hb in Hf, Hs. cbn [app] in Hf, Hs.
      rewrite Hrest in *. rewrite Hf, Hs.
      eexists. split; [reflexivity |]. cbn. split; [| reflexivity].
      apply next_segment_concat in E as [E _]. rewrite E in Hrest.
      rewrite <- (app_nil_r seg) in Hrest at 2.
      apply app_inv_head in Hrest. exact Hrest.
    + cbn [app]. intros Hrest. unfold pending in Hp.
      rewrite Hb, Hrest in Hp. apply Z.eqb_neq in E0.
      unfold len in Hp. cbn in Hp. lia.
  - intros Hrest. unfold pending in Hf, Hs. rewrite Hb in Hf, Hs.
    rewrite Hrest in Hf, Hs. rewrite Hf, Hs, Hrest.
    eexists. split; [reflexivity |]. cbn. split; [| reflexivity].
    rewrite <- (app_nil_r (b :: buf)) in Hrest at 2.
    apply app_inv_head in Hrest. exact Hrest.
Qed.

(** A read that finds fewer bytes than requested returns fewer. *)
Lemma read_short n r o r1 :
  len (available r) < n -> read n r = (o, r1) ->
  match o with
  | Return d => len d < n
  | _ => True
  end.
Proof.
  intros Ha. pose proof (len_nonneg (available r)) as H0.
  unfold read. destruct (n =? 0) eqn:E0; [lia |].
  destruct (n <? 0) eqn:E1; [lia |].
  assert (Hf : len (firstn (Z.to_nat n) (available r)) < n).
  { unfold len in *. rewrite length_firstn. lia. }
  revert Ha Hf. unfold available.
  destruct (buffer r).
  - destruct (next_segment (incoming r)) as [[seg rest] |].
    + intros _ Hf H; injection H as <- <-. exact Hf.
    + intros _ Hf. rewrite firstn_nil in Hf.
      destruct (at_end r); intros H; injection H as <- <-;
        [exact Hf | exact I | exact I].
  - intros _ Hf H; injection H as <- <-. exact Hf.
Qed.

(** Once every byte has been consumed a read returns nothing, raises or
    waits, as the end of the stream decides. *)
Lemma read_drained n r :
  pending r = [] ->
  exists r',
    read n r =
      ((if n =? 0 then Return []
        else match at_end r with
             | Eof => Return []
             | Broken e => Raise e
             | Open => Blocked
             end), r').
Proof.
  unfold pending. intros Hp. apply app_eq_nil in Hp as [Hb Hi].
  unfold read, pending. rewrite Hb, Hi. cbn [app].
  rewrite (concat_nil_next_segment _ Hi).
  destruct (n =? 0); [eexists; reflexivity |].
  destruct (n <? 0); destruct (at_end r); eexists; reflexivity.
Qed.

(** What a read returns, by the sign of the count. *)
Lemma read_returns n r d r' :
  read n r = (Return d, r') ->
  d = if n =? 0 then []
      else if n <? 0 then pending r
      else firstn (Z.to_nat n) (available r).
Proof.
  unfold read, available.
  destruct (n =? 0); [intros H; injection H as <- <-; reflexivity |].
  destruct (n <? 0).
  { destruct (at_end r); intros H; try discriminate.
    injection H as <- <-. reflexivity. }
  destruct (buffer r).
  - destruct (next_segment (incoming r)) as [[seg rest] |].
    + intros H; injection H as <- <-. reflexivity.
    + destruct (at_end r); intros H; try discriminate.
      injection H as <- <-. now rewrite firstn_nil.
  - intros H; injection H as <- <-. reflexivity.
Qed.

(** ** Reads served from the buffer *)

(** Bytes that have arrived are handed over without waiting, and what
    follows them stays in the buffer. *)
Lemma read_buffered n r m tail :
  0 < n -> buffer r = m ++ tail -> len m = n ->
  read n r = (Return m, mkReader tail (incoming r) (at_end r)).
Proof.
  intros Hn Hb Hm. unfold read.
  replace (n =? 0) with false by (symmetry; apply Z.eqb_neq; lia).
  replace (n <? 0) with false by (symmetry; apply Z.ltb_ge; lia).
  assert (Hlen : Z.to_nat n = List.length m) by (unfold len in Hm; lia).
  destruct m as [| b m]; [unfold len in Hm; cbn in Hm; lia |].
  rewrite Hb, Hlen. cbn [app].
  change (b :: m ++ tail) with ((b :: m) ++ tail).
  rewrite firstn_app, Nat.sub_diag, firstn_all, skipn_app, Nat.sub_diag, skipn_all.
  cbn [firstn skipn app]. rewrite app_nil_r. reflexivity.
Qed.

(** A read that finds fewer bytes than requested returns them all, at once
    when there are some and at end of stream when there are none. *)
Lemma read_short_returns n r :
  len (available r) < n ->
  available r <> [] \/ at_end r = Eof ->
  exists r1, read n r = (Return (available r), r1).
Proof.
  intros Hlt Hsome. pose proof (len_nonneg (available r)) as H0.
  unfold read.
  replace (n =? 0) with false by (symmetry; apply Z.eqb_neq; lia).
  replace (n <? 0) with false by (symmetry; apply Z.ltb_ge; lia).
  assert (Hf : firstn (Z.to_nat n) (available r) = available r).
  { apply firstn_all2. unfold len in Hlt. lia. }
  revert Hsome Hf. unfold available.
  destruct (buffer r).
  - destruct (next_segment (incoming r)) as [[seg rest] |].
    + intros _ ->. eexists. reflexivity.
    + intros [Hne | ->] _; [now destruct Hne | eexists; reflexivity].
  - intros _ ->. eexists. reflexivity.
Qed.

(** The two size bytes stand for a number below 65536. *)
Lemma big_endian_to_int_two_bytes (l : bytes) :
  0 <= big_endian_to_int (firstn 2 l) < 65536.
Proof.
  assert (Hb : forall b : byte, 0 <= Z.of_N (Byte.to_N b) <= 255).
  { intros b. pose proof (Byte.to_N_bounded b). lia. }
  destruct l as [| a [| b l]]; cbn.
  - lia.
  - pose proof (Hb a). lia.
  - pose proof (Hb a). pose proof (Hb b). lia.
Qed.

Lemma available_nil_pending r : available r = [] -> pending r = [].
Proof.
  unfold available, pending. destruct (buffer r); [| discriminate].
  destruct (next_segment (incoming r)) as [[seg rest] |] eqn:E.
  - intros ->. apply next_segment_concat in E as [_ E]. now destruct E.
  - intros _. exact (next_segment_none _ E).
Qed.

(** ** decode_authentication *)

Lemma decode_authentication_frame ct k t :
  decode_authentication ct k t = (decode_result ct k, t ++ decode_calls ct k).
Proof.
  unfold decode_result, decode_calls, decode_authentication. run.
  repeat (step; cbn [fst snd app]);
    rewrite <- ?app_assoc, ?app_nil_r; reflexivity.
Qed.

(** C5.  A ciphertext shorter than [ENCRYPTED_AUTH_MSG_LEN] makes
    [decode_authentication] raise the length error, and the run records no
    call at all: neither decoder, the ECDH agreement nor the key recovery is
    invoked. *)
Theorem decode_authentication_too_short ct k t :
  len ct < ENCRYPTED_AUTH_MSG_LEN ->
  decode_authentication ct k t = (Raise (AuthMsgTooShort (len ct)), t).
Proof.
  intros H. unfold decode_authentication. run.
  apply Z.ltb_lt in H. rewrite H. reflexivity.
Qed.

(** C6.  For a ciphertext that is not too short the decoder is selected by
    the length alone: the plain decoder when the length equals
    [ENCRYPTED_AUTH_MSG_LEN], the extended decoder when it exceeds it.  The
    selected decoder is the first call of the run and the only decoder
    call, it receives the ciphertext and the private key unchanged, and an
    exception it raises (decryption or format error) is the exception of
    [decode_authentication], after which nothing else is called. *)
Theorem decode_authentication_dispatch ct k t :
  ENCRYPTED_AUTH_MSG_LEN <= len ct ->
  exists rest,
    snd (decode_authentication ct k t)
      = t ++ (if len ct =? ENCRYPTED_AUTH_MSG_LEN
              then Call_decode_auth_plain ct k
              else Call_decode_auth_eip8 ct k) :: rest
    /\ filter is_decoder_call rest = []
    /\ match (if len ct =? ENCRYPTED_AUTH_MSG_LEN
              then decode_auth_plain ct k
              else decode_auth_eip8 ct k) with
       | Err e => fst (decode_authentication ct k t) = Raise e /\ rest = []
       | Ok _ => True
       end.
Proof.
  intros H. unfold decode_authentication. run.
  destruct (len ct <? ENCRYPTED_AUTH_MSG_LEN) eqn:E; [apply Z.ltb_lt in E; lia |].
  destruct (len ct =? ENCRYPTED_AUTH_MSG_LEN);
    repeat (step; cbn [fst snd]);
    rewrite <- ?app_assoc; cbn [app];
    eexists; (split; [reflexivity | split; [reflexivity | auto]]).
Qed.

(** C2 (as the code has it).  Once the selected decoder returns a signature,
    the initiator public key and the initiator nonce, the function calls
    [ecdh_agree] on the local private key and the initiator public key, then
    [sxor] on the shared secret and the initiator nonce, then recovers the
    ephemeral public key from the signature with the XOR itself as the
    message hash: no hash function is applied in between.  It returns the
    recovered key with the nonce and the initiator public key; an exception
    of any of the three calls ends the run. *)
Theorem decode_authentication_recovers_from_xor ct k t sig pub nonce v :
  ENCRYPTED_AUTH_MSG_LEN <= len ct ->
  decoder_result ct k = Ok (sig, pub, nonce, v) ->
  decode_authentication ct k t =
    match ecdh_agree k pub with
    | Err e => (Raise e, t ++ [decoder_call ct k; Call_ecdh_agree k pub])
    | Ok shared_secret =>
        match sxor shared_secret nonce with
        | Err e =>
            (Raise e, t ++ [decoder_call ct k; Call_ecdh_agree k pub;
                            Call_sxor shared_secret nonce])
        | Ok x =>
            let calls :=
              [decoder_call ct k; Call_ecdh_agree k pub;
               Call_sxor shared_secret nonce;
               Call_recover_public_key_from_msg_hash sig x] in
            match recover_public_key_from_msg_hash sig x with
            | Err e => (Raise e, t ++ calls)
            | Ok ephem_pubkey => (Return (ephem_pubkey, nonce, pub), t ++ calls)
            end
        end
    end.
Proof.
  intros H Hd. unfold decoder_result, decoder_call in *.
  unfold decode_authentication. run.
  destruct (len ct <? ENCRYPTED_AUTH_MSG_LEN) eqn:E; [apply Z.ltb_lt in E; lia |].
  destruct (len ct =? ENCRYPTED_AUTH_MSG_LEN); rewrite Hd; cbn [fst snd];
    repeat (step; cbn [fst snd]); rewrite <- ?app_assoc; reflexivity.
Qed.

(** ** The two phases of receive_handshake *)

Lemma receive_handshake_phases :
  receive_handshake =
    (msg <- reader_read ENCRYPTED_AUTH_MSG_LEN ;;
     self_privkey <- gets (fun w => privkey (self w)) ;;
     decoded <- read_and_decode self_privkey msg ;;
     reply_and_register self_privkey decoded).
Proof.
  unfold receive_handshake, read_and_decode, reply_and_register.
  f_equal.
Qed.

(** ** The reply phase *)

#[local] Arguments reply_and_register : simpl never.

Create HintDb reply.
#[local] Hint Unfold reply_and_register writer_get_extra_info_peername
  secrets_token_bytes writer_write writer_drain peer_pool_add_peer : reply.

Lemma reply_and_register_run k ephem nonce pub msg w :
  exists ev,
    let (out, w') := reply_and_register k (ephem, nonce, pub, msg) w in
    trace w' = trace w ++ ev
    /\ reader (conn w') = reader (conn w)
    /\ bind_fault w' = bind_fault w
    /\ filter is_decoder_call ev = []
    /\ match filter is_derive_call ev with
       | [] => is_return out = false
       | [d] => derived_after_flush ev w w' nonce ephem msg d
       | _ => False
       end
    /\ if is_return out then
         exists p,
           self w' = set_peer_pool
                       (mkPeerPool (connected_nodes (peer_pool (self w)) ++ [p])
                                   (pool_stopped (peer_pool (self w))))
                       (self w)
           /\ filter is_peer_event ev = [New_ETHPeer p; PeerPool_add_peer p]
           /\ filter is_derive_call ev <> []
           /\ pubkey (remote p) = pub
       else self w' = self w /\ filter is_peer_event ev = [].
Proof.
  autounfold with reply. run. cbn.
  repeat (step; cbn [fst snd is_return]).
  all: eexists; cbn.
  all: rewrite <- ?app_assoc; cbn [app].
  all: (split; [reflexivity |]).
  all: cbn.
  all: try (repeat split; reflexivity).
  all: split; [reflexivity | split; [reflexivity | split; [reflexivity | split]]].
  all: try match goal with
       | |- derived_after_flush (?e1 :: ?e2 :: ?e3 :: ?e4 :: ?e5 :: _) _ _ _ _ _ _ =>
           exists [e1; e2; e3; e4; e5]; do 3 eexists; cbn;
           repeat split; try (reflexivity || assumption); auto 6
       end.
  - eexists; repeat split; (reflexivity || discriminate).
  - split; reflexivity.
Qed.

(** ** The reply phase, exit by exit *)

(** The run of the reply phase: one case per call that can raise. *)
Lemma reply_and_register_unfold k ephem nonce pub msg w :
  reply_and_register k (ephem, nonce, pub, msg) w =
    let wr := writer (conn w) in
    match peername wr with
    | None =>
        (Raise (OtherError "TypeError"),
         world_logged w [Writer_get_extra_info_peername])
    | Some (ip, port, _) =>
        let remote := mkNode pub (mkAddress ip port) in
        let ev2 := [Writer_get_extra_info_peername;
                    New_HandshakeResponder remote k] in
        match HandshakeResponder remote k with
        | Err e => (Raise e, world_logged w ev2)
        | Ok responder =>
            let ev3 := ev2 ++ [Secrets_token_bytes HASH_LEN] in
            if HASH_LEN <? 0 then
              (Raise (OtherError "ValueError"), world_logged w ev3)
            else
              let rn := map (os_random (conn w)) (seq 0 (Z.to_nat HASH_LEN)) in
              let ev4 := ev3 ++ [Call_create_auth_ack_message rn] in
              match create_auth_ack_message responder rn with
              | Err e => (Raise e, world_logged w ev4)
              | Ok ack_msg =>
                  let ev5 := ev4 ++ [Call_encrypt_auth_ack_message ack_msg] in
                  match encrypt_auth_ack_message responder ack_msg with
                  | Err e => (Raise e, world_logged w ev5)
                  | Ok ack =>
                      let ev7 := ev5 ++ [Writer_write ack; Writer_drain] in
                      match drain_fault wr with
                      | Some e => (Raise e, reply_world w (wrote wr ack) (self w) ev7)
                      | None =>
                          let ev8 :=
                            ev7 ++ [Call_derive_secrets nonce rn ephem msg ack] in
                          match derive_secrets responder nonce rn ephem msg ack with
                          | Err e =>
                              (Raise e, reply_world w (wrote wr ack) (self w) ev8)
                          | Ok (aes, mac, egress, ingress) =>
                              let peer :=
                                mkETHPeer remote k (fd (conn w)) (fd (conn w))
                                          aes mac egress ingress
                                          (chaindb (self w)) (network_id (self w)) in
                              let pool := peer_pool (self w) in
                              (Return tt,
                               reply_world w (wrote wr ack)
                                 (set_peer_pool
                                    (mkPeerPool (connected_nodes pool ++ [peer])
                                                (pool_stopped pool))
                                    (self w))
                                 (ev8 ++ [New_ETHPeer peer; PeerPool_add_peer peer]))
                          end
                      end
                  end
              end
        end
    end.
Proof.
  autounfold with reply. run. unfold reply_world, world_logged, wrote. cbn.
  repeat (step; cbn); norm_trace;
    unfold set_trace, set_conn, set_self, set_writer; cbn;
    repeat match goal with
           | H : ?x = _ |- context [?x] => rewrite H
           end;
    reflexivity.
Qed.

(** ** The decoding phase *)

(** The run of [receive_handshake], one case per way the reads and the
    decoding attempts can end. *)
Lemma receive_handshake_unfold w :
  receive_handshake w =
    let k := privkey (self w) in
    let first_read := Reader_read ENCRYPTED_AUTH_MSG_LEN in
    match read ENCRYPTED_AUTH_MSG_LEN (reader (conn w)) with
    | (Return msg, r1) =>
        let attempt1 := first_read :: decode_calls msg k in
        match decode_result msg k with
        | Return decoded =>
            reply_and_register k (decoded, msg) (world_after w r1 attempt1)
        | Raise DecryptionError =>
            let second_read := [Reader_read (remaining_bytes msg)] in
            match read (remaining_bytes msg) r1 with
            | (Return extra, r2) =>
                let w2 := world_after w r2
                            (attempt1 ++ second_read ++ decode_calls (msg ++ extra) k) in
                match decode_result (msg ++ extra) k with
                | Return decoded => reply_and_register k (decoded, msg ++ extra) w2
                | Raise e => (Raise e, w2)
                | Blocked => (Blocked, w2)
                end
            | (Raise e, r2) => (Raise e, world_after w r2 (attempt1 ++ second_read))
            | (Blocked, r2) => (Blocked, world_after w r2 (attempt1 ++ second_read))
            end
        | Raise e => (Raise e, world_after w r1 attempt1)
        | Blocked => (Blocked, world_after w r1 attempt1)
        end
    | (Raise e, r1) => (Raise e, world_after w r1 [first_read])
    | (Blocked, r1) => (Blocked, world_after w r1 [first_read])
    end.
Proof.
  rewrite receive_handshake_phases.
  unfold read_and_decode, remaining_bytes, world_after, reader_read. run. cbn.
  destruct (read ENCRYPTED_AUTH_MSG_LEN (reader (conn w))) as [[msg | e |] r1];
    cbn; try reflexivity.
  rewrite decode_authentication_frame.
  destruct (decode_result msg (privkey (self w))) as [decoded | e |]; cbn.
  - norm_trace. reflexivity.
  - destruct e; cbn; norm_trace; try reflexivity.
    destruct (read _ r1) as [[extra | e |] r2]; cbn; try reflexivity.
    rewrite decode_authentication_frame.
    destruct (decode_result (msg ++ extra) (privkey (self w))); cbn;
      norm_trace; reflexivity.
  - norm_trace. reflexivity.
Qed.

(** ** Results and calls of a decoding attempt *)

Lemma decode_short ct k :
  len ct < ENCRYPTED_AUTH_MSG_LEN ->
  decode_result ct k = Raise (AuthMsgTooShort (len ct)) /\ decode_calls ct k = [].
Proof.
  intros H. unfold decode_result, decode_calls, decode_authentication. run.
  apply Z.ltb_lt in H. rewrite H. split; reflexivity.
Qed.

Lemma decode_plain_error ct k e :
  len ct = ENCRYPTED_AUTH_MSG_LEN ->
  decode_auth_plain ct k = Err e ->
  decode_result ct k = Raise e
  /\ decode_calls ct k = [Call_decode_auth_plain ct k].
Proof.
  intros H He. unfold decode_result, decode_calls, decode_authentication. run.
  rewrite H, Z.ltb_irrefl, Z.eqb_refl, He. split; reflexivity.
Qed.

Lemma decode_calls_head ct k :
  ENCRYPTED_AUTH_MSG_LEN <= len ct ->
  exists rest,
    decode_calls ct k = decoder_call ct k :: rest
    /\ filter is_decoder_call rest = [].
Proof.
  intros H. unfold decode_calls, decoder_call, decode_authentication. run.
  destruct (len ct <? ENCRYPTED_AUTH_MSG_LEN) eqn:E; [apply Z.ltb_lt in E; lia |].
  destruct (len ct =? ENCRYPTED_AUTH_MSG_LEN);
    repeat (step; cbn [fst snd]); cbn [app];
    eexists; (split; [reflexivity | reflexivity]).
Qed.

(** A decryption error never comes from a buffer that is too short: that
    one raises the length error before any call. *)
Lemma decryption_error_not_short ct k :
  decode_result ct k = Raise DecryptionError ->
  ENCRYPTED_AUTH_MSG_LEN <= len ct.
Proof.
  intros H. destruct (Z.lt_ge_cases (len ct) ENCRYPTED_AUTH_MSG_LEN) as [Hlt | Hge];
    [| exact Hge].
  apply (decode_short ct k) in Hlt as [Hr _]. rewrite Hr in H. discriminate.
Qed.

(** ** The handshake on a message of exactly the fixed length *)

(** C1 (as the code has it).  The peer sends exactly
    [ENCRYPTED_AUTH_MSG_LEN] bytes and the plain decoder raises a decryption
    error on them.  The handler of the decryption error does not look at
    the length: it always issues the second read.  No byte follows, so no
    call to the extended decoder occurs, the handshake never returns and
    the server is left as it was.  When the first read returns the message
    whole, the first call after it is the plain decoder on the message; what
    follows the second read is decided by the count and by the end of the
    stream: a count of zero or a closed peer lead to the plain decoder on
    the same buffer, which raises the decryption error again; a broken
    connection raises its exception; and while the peer keeps the connection
    open the handshake stays suspended in the second read.  When the first
    read returns a part of the message only, no decoder is called and the
    handshake raises the length error. *)
Theorem exact_length_decryption_failure_never_reaches_eip8 w :
  len (pending (reader (conn w))) = ENCRYPTED_AUTH_MSG_LEN ->
  decode_auth_plain (pending (reader (conn w))) (privkey (self w))
    = Err DecryptionError ->
  exists ev,
    let (out, w') := receive_handshake w in
    let r := reader (conn w) in
    let msg := pending r in
    let plain := Call_decode_auth_plain msg (privkey (self w)) in
    trace w' = trace w ++ Reader_read ENCRYPTED_AUTH_MSG_LEN :: ev
    /\ filter is_eip8_call ev = []
    /\ is_return out = false
    /\ self w' = self w
    /\ if len (available r) =? ENCRYPTED_AUTH_MSG_LEN then
         let retried := (remaining_bytes msg =? 0) || is_eof (at_end r) in
         ev = plain :: Reader_read (remaining_bytes msg)
                    :: (if retried then [plain] else [])
         /\ out = (if retried then Raise DecryptionError
                   else match at_end r with
                        | Broken e => Raise e
                        | _ => Blocked
                        end)
       else ev = [] /\ out = Raise (AuthMsgTooShort (len (available r))).
Proof.
  intros Hlen Hplain. rewrite receive_handshake_unfold. cbn zeta.
  destruct (len (available (reader (conn w))) =? ENCRYPTED_AUTH_MSG_LEN) eqn:Eone.
  - apply Z.eqb_eq in Eone.
    destruct (read_whole _ _ Eone Hlen) as (r1 & -> & Hr1 & Hend).
    destruct (decode_plain_error _ _ _ Hlen Hplain) as [-> ->].
    destruct (read_drained (remaining_bytes (pending (reader (conn w)))) r1 Hr1)
      as (r2 & ->).
    rewrite Hend.
    destruct (remaining_bytes (pending (reader (conn w))) =? 0); cbn [orb].
    + rewrite app_nil_r.
      destruct (decode_plain_error _ _ _ Hlen Hplain) as [-> ->].
      eexists. cbn. norm_trace. repeat split; reflexivity.
    + destruct (at_end (reader (conn w))); cbn [is_eof].
      * rewrite app_nil_r.
        destruct (decode_plain_error _ _ _ Hlen Hplain) as [-> ->].
        eexists. cbn. norm_trace. repeat split; reflexivity.
      * eexists. cbn. norm_trace. repeat split; reflexivity.
      * eexists. cbn. norm_trace. repeat split; reflexivity.
  - apply Z.eqb_neq in Eone.
    assert (Hshort : len (available (reader (conn w))) < ENCRYPTED_AUTH_MSG_LEN).
    { destruct (available_prefix (reader (conn w))) as [rest Hrest].
      rewrite Hrest, len_app in Hlen. pose proof (len_nonneg rest). lia. }
    assert (Hsome : available (reader (conn w)) <> []).
    { intros Hnil. apply available_nil_pending in Hnil.
      rewrite Hnil in Hlen. unfold len in Hlen, Hshort. cbn in Hlen.
      pose proof (len_nonneg (available (reader (conn w)))) as H0.
      unfold len in H0. lia. }
    destruct (read_short_returns _ _ Hshort (or_introl Hsome)) as (r1 & ->).
    destruct (decode_short (available (reader (conn w))) (privkey (self w)) Hshort)
      as [-> ->].
    exists []. cbn. repeat split; reflexivity.
Qed.

(** ** The shape of every run *)

Lemma decode_calls_phase ct k :
  forallb is_decode_phase_event (decode_calls ct k) = true.
Proof.
  unfold decode_calls, decode_authentication. run.
  repeat (step; cbn [fst snd]); reflexivity.
Qed.

Lemma filter_disjoint (p f : event -> bool) (l : list event) :
  (forall e, p e = true -> f e = false) ->
  forallb p l = true -> filter f l = [].
Proof.
  intros Hpf. induction l as [| e l IH]; [reflexivity |].
  cbn. intros H. apply andb_prop in H as [He Hl].
  rewrite (Hpf e He). exact (IH Hl).
Qed.

Lemma decode_phase_no_derive e :
  is_decode_phase_event e = true -> is_derive_call e = false.
Proof. destruct e; cbn; congruence. Qed.

Lemma decode_phase_no_peer e :
  is_decode_phase_event e = true -> is_peer_event e = false.
Proof. destruct e; cbn; congruence. Qed.

Lemma receive_handshake_shape w : handshake_shape w (receive_handshake w).
Proof.
  rewrite receive_handshake_unfold. cbn zeta.
  destruct (read ENCRYPTED_AUTH_MSG_LEN (reader (conn w))) as [[msg | e |] r1] eqn:Hr1;
    try (apply ends_decoding; reflexivity).
  apply read_pending in Hr1.
  destruct (decode_result msg (privkey (self w))) as [decoded | e |] eqn:Hd1.
  - apply enters_reply; [| exact Hr1 | exact Hd1].
    cbn. apply decode_calls_phase.
  - assert (Hpre : forallb is_decode_phase_event
                     (Reader_read ENCRYPTED_AUTH_MSG_LEN
                        :: decode_calls msg (privkey (self w))) = true)
      by (cbn; apply decode_calls_phase).
    destruct e; try (apply ends_decoding; [reflexivity | exact Hpre]).
    destruct (read (remaining_bytes msg) r1) as [[extra | e |] r2] eqn:Hr2.
    + apply read_pending in Hr2.
      assert (Hpre2 : forallb is_decode_phase_event
                (Reader_read ENCRYPTED_AUTH_MSG_LEN
                   :: decode_calls msg (privkey (self w))
                   ++ [Reader_read (remaining_bytes msg)]
                   ++ decode_calls (msg ++ extra) (privkey (self w))) = true).
      { cbn. rewrite forallb_app. cbn. now rewrite !decode_calls_phase. }
      destruct (decode_result (msg ++ extra) (privkey (self w))) eqn:Hd2.
      * apply enters_reply; [exact Hpre2 | | exact Hd2].
        rewrite Hr1, Hr2. apply app_assoc.
      * apply ends_decoding; [reflexivity | exact Hpre2].
      * apply ends_decoding; [reflexivity | exact Hpre2].
    + apply ends_decoding; [reflexivity |].
      cbn. rewrite forallb_app. cbn. now rewrite decode_calls_phase.
    + apply ends_decoding; [reflexivity |].
      cbn. rewrite forallb_app. cbn. now rewrite decode_calls_phase.
  - apply ends_decoding; [reflexivity |]. cbn. apply decode_calls_phase.
Qed.

Lemma derived_after_flush_lift w rd pre ev w' nonce ephem msg d :
  derived_after_flush ev (world_after w rd pre) w' nonce ephem msg d ->
  derived_after_flush (pre ++ ev) w w' nonce ephem msg d.
Proof.
  intros (pre0 & post & rn & ack & Hev & Hd & Hrn & Hin & Hw & Hf).
  exists (pre ++ pre0), post, rn, ack. cbn in Hrn, Hw, Hf.
  repeat split; try assumption.
  - rewrite Hev. apply app_assoc.
  - apply in_or_app. right. exact Hin.
Qed.

(** The decoding phase yields at most one thing. *)
Lemma decoding_yields_functional w m1 d1 m2 d2 :
  decoding_yields w m1 d1 -> decoding_yields w m2 d2 -> m1 = m2 /\ d1 = d2.
Proof.
  intros H1 H2.
  destruct H1 as [msg r1 d Hr Hd | msg r1 extra r2 d Hr Hd Hr2 Hd2];
    destruct H2 as [msg' r1' d' Hr' Hd' | msg' r1' extra' r2' d' Hr' Hd' Hr2' Hd2'];
    rewrite Hr in Hr'; injection Hr' as <- <-.
  - rewrite Hd in Hd'. injection Hd' as <-. auto.
  - rewrite Hd in Hd'. discriminate.
  - rewrite Hd in Hd'. discriminate.
  - rewrite Hr2 in Hr2'. injection Hr2' as <- <-.
    rewrite Hd2 in Hd2'. injection Hd2' as <-. auto.
Qed.

Lemma receive_handshake_run w : handshake_run w (receive_handshake w).
Proof.
  rewrite receive_handshake_unfold. cbn zeta.
  destruct (read ENCRYPTED_AUTH_MSG_LEN (reader (conn w))) as [[msg | e |] r1] eqn:Hr1;
    try (apply run_ends_decoding; [reflexivity | reflexivity |];
         intros m d Hy; destruct Hy; congruence).
  pose proof (read_pending _ _ _ _ Hr1) as Hp1.
  assert (Hpre : forallb is_decode_phase_event
                   (Reader_read ENCRYPTED_AUTH_MSG_LEN
                      :: decode_calls msg (privkey (self w))) = true)
    by (cbn; apply decode_calls_phase).
  destruct (decode_result msg (privkey (self w))) as [decoded | e |] eqn:Hd1.
  - apply run_enters_reply; [exact Hpre | exact Hp1 |].
    exact (first_attempt_decodes w msg r1 decoded Hr1 Hd1).
  - assert (Hno1 : e <> DecryptionError ->
                   forall m d, ~ decoding_yields w m d).
    { intros Hne m d Hy. destruct Hy as [? ? ? Hr Hd | ? ? ? ? ? Hr Hd ? ?];
        rewrite Hr1 in Hr; injection Hr as <- <-; congruence. }
    destruct e;
      try (apply run_ends_decoding; [reflexivity | exact Hpre |];
           apply Hno1; discriminate).
    assert (Hpre1 : forallb is_decode_phase_event
              (Reader_read ENCRYPTED_AUTH_MSG_LEN
                 :: decode_calls msg (privkey (self w))
                 ++ [Reader_read (remaining_bytes msg)]) = true).
    { cbn. rewrite forallb_app. cbn. now rewrite decode_calls_phase. }
    destruct (read (remaining_bytes msg) r1) as [[extra | e |] r2] eqn:Hr2;
      try (apply run_ends_decoding; [reflexivity | exact Hpre1 |];
           intros m d Hy; destruct Hy as [? ? ? Hr Hd | ? ? ? ? ? Hr Hd Hr' ?];
           rewrite Hr1 in Hr; injection Hr as <- <-; congruence).
    pose proof (read_pending _ _ _ _ Hr2) as Hp2.
    assert (Hpre2 : forallb is_decode_phase_event
              (Reader_read ENCRYPTED_AUTH_MSG_LEN
                 :: decode_calls msg (privkey (self w))
                 ++ [Reader_read (remaining_bytes msg)]
                 ++ decode_calls (msg ++ extra) (privkey (self w))) = true).
    { cbn. rewrite forallb_app. cbn. now rewrite !decode_calls_phase. }
    destruct (decode_result (msg ++ extra) (privkey (self w))) as [decoded | e |] eqn:Hd2.
    + apply run_enters_reply; [exact Hpre2 | |].
      * rewrite Hp1, Hp2. apply app_assoc.
      * exact (second_attempt_decodes w msg r1 extra r2 decoded Hr1 Hd1 Hr2 Hd2).
    + apply run_ends_decoding; [reflexivity | exact Hpre2 |].
      intros m d Hy. destruct Hy as [? ? ? Hr Hd | ? ? ? ? ? Hr Hd Hr' Hd'];
        rewrite Hr1 in Hr; injection Hr as <- <-; [congruence |].
      rewrite Hr2 in Hr'. injection Hr' as <- <-. congruence.
    + apply run_ends_decoding; [reflexivity | exact Hpre2 |].
      intros m d Hy. destruct Hy as [? ? ? Hr Hd | ? ? ? ? ? Hr Hd Hr' Hd'];
        rewrite Hr1 in Hr; injection Hr as <- <-; [congruence |].
      rewrite Hr2 in Hr'. injection Hr' as <- <-. congruence.
  - apply run_ends_decoding; [reflexivity | exact Hpre |].
    intros m d Hy. destruct Hy as [? ? ? Hr Hd | ? ? ? ? ? Hr Hd ? ?];
      rewrite Hr1 in Hr; injection Hr as <- <-; congruence.
Qed.

(** When every step of the reply up to the flush succeeds, the reply phase
    calls [derive_secrets], once, with the ack it has just flushed. *)
Lemma reply_derives k ephem nonce pub msg w ip port rest responder ack_msg ack :
  peername (writer (conn w)) = Some (ip, port, rest) ->
  HandshakeResponder (mkNode pub (mkAddress ip port)) k = Ok responder ->
  0 <= HASH_LEN ->
  create_auth_ack_message responder
    (map (os_random (conn w)) (seq 0 (Z.to_nat HASH_LEN))) = Ok ack_msg ->
  encrypt_auth_ack_message responder ack_msg = Ok ack ->
  drain_fault (writer (conn w)) = None ->
  exists ev,
    trace (snd (reply_and_register k (ephem, nonce, pub, msg) w)) = trace w ++ ev
    /\ filter is_derive_call ev
       = [Call_derive_secrets nonce
            (map (os_random (conn w)) (seq 0 (Z.to_nat HASH_LEN))) ephem msg ack].
Proof.
  intros Hname Hresp Hlen Hcreate Hencrypt Hdrain.
  rewrite reply_and_register_unfold. cbn zeta.
  rewrite Hname, Hresp.
  replace (HASH_LEN <? 0) with false by (symmetry; apply Z.ltb_ge; exact Hlen).
  rewrite Hcreate, Hencrypt, Hdrain.
  destruct (derive_secrets _ _ _ _ _ _) as [[[[aes mac] egress] ingress] | e];
    eexists; split; reflexivity.
Qed.

(** ** Ordering of the ack and of the derivation of the secrets *)

(** C7 (as the code has it).  In every run of the handshake the secrets are
    derived at most once, and a run that returns has derived them; a run
    that fails before the derivation derives nothing.  The derivation comes
    right after the write and the drain of the ack ciphertext, which is the
    ciphertext the run has appended to the writer, and the drain has not
    raised.  Its arguments are the initiator nonce and the ephemeral public
    key that the decoding phase yields for the bytes read from the
    connection, the responder nonce drawn for the ack, those bytes in full,
    and that ack ciphertext.  And the derivation does happen, with these
    arguments, whenever the decoding phase yields a payload, the peer name
    is there, the responder is constructed, the nonce length is not
    negative, the ack is created and encrypted, and the drain does not
    raise. *)
Theorem secrets_derived_after_ack_flushed w :
  exists ev,
    let (out, w') := receive_handshake w in
    let k := privkey (self w) in
    let rn := map (os_random (conn w)) (seq 0 (Z.to_nat HASH_LEN)) in
    trace w' = trace w ++ ev
    /\ match filter is_derive_call ev with
       | [] => is_return out = false
       | [d] =>
           exists initiator_nonce ephem_pubkey initiator_pubkey msg,
             derived_after_flush ev w w' initiator_nonce ephem_pubkey msg d
             /\ pending (reader (conn w)) = msg ++ pending (reader (conn w'))
             /\ decoding_yields w msg
                  (ephem_pubkey, initiator_nonce, initiator_pubkey)
       | _ => False
       end
    /\ forall msg ephem nonce pub ip port rest responder ack_msg ack,
         decoding_yields w msg (ephem, nonce, pub) ->
         peername (writer (conn w)) = Some (ip, port, rest) ->
         HandshakeResponder (mkNode pub (mkAddress ip port)) k = Ok responder ->
         0 <= HASH_LEN ->
         create_auth_ack_message responder rn = Ok ack_msg ->
         encrypt_auth_ack_message responder ack_msg = Ok ack ->
         drain_fault (writer (conn w)) = None ->
         filter is_derive_call ev = [Call_derive_secrets nonce rn ephem msg ack].
Proof.
  destruct (receive_handshake_run w)
    as [out rd pre Hout Hpre Hno | rd pre msg [[ephem nonce] pub] Hpre Hpend Hy].
  - exists pre. cbn. split; [reflexivity | split].
    + rewrite (filter_disjoint _ _ _ decode_phase_no_derive Hpre). exact Hout.
    + intros m e n p' ip port rest responder ack_msg ack Hy'.
      destruct (Hno _ _ Hy').
  - pose proof (reply_and_register_run (privkey (self w)) ephem nonce pub msg
                  (world_after w rd pre)) as (ev & H).
    pose proof (reply_derives (privkey (self w)) ephem nonce pub msg
                  (world_after w rd pre)) as Hderives.
    destruct (reply_and_register _ _ _) as [out w'].
    destruct H as (Htr & Hrd & _ & _ & Hder & _).
    exists (pre ++ ev). split; [| split].
    + rewrite Htr. cbn. symmetry. apply app_assoc.
    + rewrite filter_app, (filter_disjoint _ _ _ decode_phase_no_derive Hpre).
      cbn [app]. destruct (filter is_derive_call ev) as [| d [| d' rest]];
        [exact Hder | | exact Hder].
      exists nonce, ephem, pub, msg. split; [| split].
      * apply (derived_after_flush_lift w rd). exact Hder.
      * rewrite Hrd. exact Hpend.
      * exact Hy.
    + intros m e n p' ip port rest responder ack_msg ack Hy' Hname Hresp Hlen
             Hcreate Hencrypt Hdrain.
      destruct (decoding_yields_functional _ _ _ _ _ Hy Hy') as [<- Heq].
      injection Heq as <- <- <-.
      destruct (Hderives ip port rest responder ack_msg ack
                  Hname Hresp Hlen Hcreate Hencrypt Hdrain) as (ev' & Htr' & Hf).
      cbn [snd] in Htr'. rewrite Htr in Htr'. apply app_inv_head in Htr'.
      subst ev'. cbn in Hf.
      rewrite filter_app, (filter_disjoint _ _ _ decode_phase_no_derive Hpre).
      exact Hf.
Qed.

(** ** Containment of a failed handshake *)

(** C8.  A handshake that does not return (it raises at whatever step, or
    stays suspended) leaves the server object as it found it: the peer pool
    holds the same peers, the cancellation token and the listening handle
    are untouched.  The run has constructed no peer and registered none, and
    the handshake of any other connection runs exactly as it would have. *)
Theorem failed_handshake_is_contained w out w' :
  receive_handshake w = (out, w') ->
  is_return out = false ->
  self w' = self w
  /\ bind_fault w' = bind_fault w
  /\ (exists ev, trace w' = trace w ++ ev /\ filter is_peer_event ev = [])
  /\ forall c t,
       receive_handshake (mkWorld (self w') c (bind_fault w') t)
       = receive_handshake (mkWorld (self w) c (bind_fault w) t).
Proof.
  intros Hrun Hout.
  assert (H : self w' = self w /\ bind_fault w' = bind_fault w
              /\ exists ev, trace w' = trace w ++ ev
                            /\ filter is_peer_event ev = []).
  { revert Hrun. destruct (receive_handshake_shape w)
      as [out0 rd pre Hout0 Hpre | rd pre msg [[ephem nonce] pub] Hpre Hpend Hdec].
    - intros Hrun. injection Hrun as <- <-. cbn.
      repeat split. exists pre. split; [reflexivity |].
      exact (filter_disjoint _ _ _ decode_phase_no_peer Hpre).
    - destruct (reply_and_register_run (privkey (self w)) ephem nonce pub msg
                  (world_after w rd pre)) as (ev & H).
      intros Hrun. unfold bytes in H, Hrun. rewrite Hrun in H.
      destruct H as (Htr & _ & Hbf & _ & _ & Hself).
      rewrite Hout in Hself. destruct Hself as [Hself Hpeer].
      repeat split; [exact Hself | exact Hbf |].
      exists (pre ++ ev). split.
      + rewrite Htr. cbn. symmetry. apply app_assoc.
      + rewrite filter_app, Hpeer,
          (filter_disjoint _ _ _ decode_phase_no_peer Hpre). reflexivity. }
  destruct H as (Hs & Hb & Hev).
  repeat split; [exact Hs | exact Hb | exact Hev |].
  intros c t. rewrite Hs, Hb. reflexivity.
Qed.

(** ** The fallback after a decryption error *)

(** C3 (as the code has it).  When the first attempt raises a decryption
    error, the handler takes the first two bytes of the buffer as a
    big-endian integer, issues one read for that integer minus
    [ENCRYPTED_AUTH_MSG_LEN] plus 2, appends what the read returns and calls
    [decode_authentication] on the concatenation.  The read returns nothing
    for a zero count, everything up to end of stream for a negative count,
    and for a positive count the bytes that have arrived, at most that many:
    exactly the count when that many have arrived.  The retry goes to the
    extended decoder whenever at least one byte was appended; with nothing
    appended it is the same call as the first attempt.  A read that raises
    or stays suspended ends the handshake there. *)
Theorem decryption_failure_retries_with_declared_remainder w msg r1 :
  read ENCRYPTED_AUTH_MSG_LEN (reader (conn w)) = (Return msg, r1) ->
  decode_result msg (privkey (self w)) = Raise DecryptionError ->
  exists ev,
    let (out, w') := receive_handshake w in
    let k := privkey (self w) in
    let n := big_endian_to_int (firstn 2 msg) - ENCRYPTED_AUTH_MSG_LEN + 2 in
    trace w' = trace w ++ Reader_read ENCRYPTED_AUTH_MSG_LEN
                       :: decode_calls msg k ++ Reader_read n :: ev
    /\ match read n r1 with
       | (Return extra, r2) =>
           extra = (if n =? 0 then []
                    else if n <? 0 then pending r1
                    else firstn (Z.to_nat n) (available r1))
           /\ (len extra = n \/ n <= 0 \/ len (available r1) < n)
           /\ (exists ev', ev = decoder_call (msg ++ extra) k :: ev'
                           /\ filter is_decoder_call ev' = [])
           /\ (extra = []
               \/ decoder_call (msg ++ extra) k
                  = Call_decode_auth_eip8 (msg ++ extra) k)
       | (Raise e, _) => ev = [] /\ out = Raise e
       | (Blocked, _) => ev = [] /\ out = Blocked
       end.
Proof.
  intros Hr1 Hd1. rewrite receive_handshake_unfold. cbn zeta.
  rewrite Hr1, Hd1. unfold remaining_bytes.
  set (n := big_endian_to_int (firstn 2 msg) - ENCRYPTED_AUTH_MSG_LEN + 2).
  pose proof (decryption_error_not_short _ _ Hd1) as Hlen.
  destruct (read n r1) as [[extra | e |] r2] eqn:Hr2.
  - assert (Hlen2 : ENCRYPTED_AUTH_MSG_LEN <= len (msg ++ extra)).
    { rewrite len_app. pose proof (len_nonneg extra). lia. }
    destruct (decode_calls_head (msg ++ extra) (privkey (self w)) Hlen2)
      as (rest & Hcalls & Hrest).
    assert (Hextra : extra = (if n =? 0 then []
                              else if n <? 0 then pending r1
                              else firstn (Z.to_nat n) (available r1)))
      by exact (read_returns _ _ _ _ Hr2).
    assert (Hexact : len extra = n \/ n <= 0 \/ len (available r1) < n).
    { destruct (Z.le_gt_cases n 0) as [Hn | Hn]; [auto |].
      destruct (Z.lt_ge_cases (len (available r1)) n) as [Ha | Ha]; [auto |].
      left. destruct (read_exact n r1) as (r' & Hex & Hl); [lia | lia |].
      rewrite Hex in Hr2. injection Hr2 as <- _. exact Hl. }
    assert (Hpath : extra = []
                    \/ decoder_call (msg ++ extra) (privkey (self w))
                       = Call_decode_auth_eip8 (msg ++ extra) (privkey (self w))).
    { destruct extra as [| b extra]; [auto | right].
      unfold decoder_call.
      replace (len (msg ++ b :: extra) =? ENCRYPTED_AUTH_MSG_LEN) with false;
        [reflexivity |].
      symmetry. apply Z.eqb_neq. rewrite len_app.
      pose proof (len_nonneg extra). unfold len in *. cbn [List.length]. lia. }
    destruct (decode_result (msg ++ extra) (privkey (self w)))
      as [[[ephem nonce] pub] | e |].
    + destruct (reply_and_register_run (privkey (self w)) ephem nonce pub
                  (msg ++ extra)
                  (world_after w r2
                     (Reader_read ENCRYPTED_AUTH_MSG_LEN
                        :: decode_calls msg (privkey (self w))
                        ++ [Reader_read n]
                        ++ decode_calls (msg ++ extra) (privkey (self w)))))
        as (ev & H).
      destruct (reply_and_register _ _ _) as [out w'].
      destruct H as (Htr & _ & _ & Hnodec & _).
      exists (decode_calls (msg ++ extra) (privkey (self w)) ++ ev). split.
      * rewrite Htr. cbn. norm_trace. reflexivity.
      * repeat split; try assumption.
        exists (rest ++ ev). rewrite Hcalls. split; [reflexivity |].
        rewrite filter_app, Hrest, Hnodec. reflexivity.
    + exists (decode_calls (msg ++ extra) (privkey (self w))). split.
      * cbn. norm_trace. reflexivity.
      * repeat split; try assumption. exists rest. auto.
    + exists (decode_calls (msg ++ extra) (privkey (self w))). split.
      * cbn. norm_trace. reflexivity.
      * repeat split; try assumption. exists rest. auto.
  - exists []. cbn. norm_trace. repeat split; reflexivity.
  - exists []. cbn. norm_trace. repeat split; reflexivity.
Qed.

(** C4 (as the code has it).  When the count computed for the second read
    is negative, the handler passes it to the reader unchecked.  The read
    then returns every byte up to end of stream, raises if the connection
    breaks, and stays suspended while the peer keeps the connection open.
    The bytes returned are appended and decoded: the handshake ends as that
    second attempt ends, and proceeds to the reply when it returns.  When no
    byte follows the message, the second attempt is the first one again and
    the handshake raises the decryption error. *)
Theorem negative_remainder_reads_to_end_of_stream w msg r1 :
  read ENCRYPTED_AUTH_MSG_LEN (reader (conn w)) = (Return msg, r1) ->
  decode_result msg (privkey (self w)) = Raise DecryptionError ->
  big_endian_to_int (firstn 2 msg) - ENCRYPTED_AUTH_MSG_LEN + 2 < 0 ->
  let k := privkey (self w) in
  let n := big_endian_to_int (firstn 2 msg) - ENCRYPTED_AUTH_MSG_LEN + 2 in
  let whole := msg ++ pending r1 in
  match at_end r1 with
  | Eof =>
      match decode_result whole k with
      | Return decoded =>
          receive_handshake w =
            reply_and_register k (decoded, whole)
              (world_after w (mkReader [] [] Eof)
                 (Reader_read ENCRYPTED_AUTH_MSG_LEN
                    :: decode_calls msg k ++ Reader_read n :: decode_calls whole k))
      | Raise e => fst (receive_handshake w) = Raise e
      | Blocked => fst (receive_handshake w) = Blocked
      end
      /\ (pending r1 <> [] \/ fst (receive_handshake w) = Raise DecryptionError)
  | Broken e => fst (receive_handshake w) = Raise e
  | Open => fst (receive_handshake w) = Blocked
  end.
Proof.
  intros Hr1 Hd1 Hneg. cbn zeta.
  rewrite receive_handshake_unfold. cbn zeta.
  rewrite Hr1, Hd1. unfold remaining_bytes.
  set (n := big_endian_to_int (firstn 2 msg) - ENCRYPTED_AUTH_MSG_LEN + 2) in *.
  unfold read.
  replace (n =? 0) with false by (symmetry; apply Z.eqb_neq; lia).
  replace (n <? 0) with true by (symmetry; apply Z.ltb_lt; lia).
  destruct (at_end r1); [| reflexivity | reflexivity].
  split.
  - destruct (decode_result (msg ++ pending r1) (privkey (self w))); cbn;
      norm_trace; reflexivity.
  - destruct (pending r1) as [| b rest]; [right | left; discriminate].
    rewrite app_nil_r, Hd1. reflexivity.
Qed.

(** ** Shutdown *)

(** A handshake never assigns the listening handle. *)
Lemma receive_handshake_keeps_listener w :
  _server (self (snd (receive_handshake w))) = _server (self w).
Proof.
  destruct (receive_handshake_shape w)
    as [out rd pre Hout Hpre | rd pre msg [[ephem nonce] pub] Hpre Hpend Hdec].
  - reflexivity.
  - destruct (reply_and_register_run (privkey (self w)) ephem nonce pub msg
                (world_after w rd pre)) as (ev & H).
    destruct (reply_and_register _ _ _) as [out w'].
    destruct H as (_ & _ & _ & _ & _ & Hself). cbn [snd].
    destruct (is_return out).
    + destruct Hself as (p & -> & _). reflexivity.
    + destruct Hself as [-> _]. reflexivity.
Qed.

#[local] Hint Unfold stop start cancel_token_trigger server_close
  server_wait_closed peer_pool_stop get__server asyncio_start_server : run.

(** C9.  On a server that has been started, [stop] returns after these
    effects, in this order: the log line, the trigger of the cancellation
    token, the close of the listening server, the wait for its release, the
    stop of the peer pool.  Afterwards the token is triggered, the listener
    is closed and the pool is stopped; nothing else has changed. *)
Theorem stop_effects_in_order w l :
  _server (self w) = Some l ->
  stop w =
    (Return tt,
     mkWorld
       (mkServer (mkCancelToken (token_name (cancel_token (self w))) true)
                 (chaindb (self w)) (privkey (self w))
                 (server_address (self w)) (network_id (self w))
                 (mkPeerPool (connected_nodes (peer_pool (self w))) true)
                 (Some Closed))
       (conn w) (bind_fault w)
       (trace w ++ [Logger_info "Closing server..."; CancelToken_trigger;
                    Server_close; Server_wait_closed; PeerPool_stop])).
Proof.
  intros H. run. cbn. rewrite H. cbn.
  destruct l; cbn; norm_trace; reflexivity.
Qed.

(** C10 (as the code has it).  The listening handle is [None] on a new
    server; [start] assigns it when the listening succeeds, and a handshake
    never does.  On a server whose handle is [None], [stop] first triggers
    the cancellation token and only then raises on the dereference of
    [None]: the token is left triggered, while the handle stays [None] and
    the peer pool is not asked to stop. *)
Theorem stop_before_start_raises_after_trigger w :
  _server (self w) = None ->
  (forall k a db nodes id, _server (init k a db nodes id) = None)
  /\ match bind_fault w with
     | None => _server (self (snd (start w))) = Some Listening
     | Some e => fst (start w) = Raise e /\ _server (self (snd (start w))) = None
     end
  /\ _server (self (snd (receive_handshake w))) = None
  /\ stop w =
       (Raise (OtherError "AttributeError"),
        mkWorld
          (mkServer (mkCancelToken (token_name (cancel_token (self w))) true)
                    (chaindb (self w)) (privkey (self w))
                    (server_address (self w)) (network_id (self w))
                    (peer_pool (self w)) None)
          (conn w) (bind_fault w)
          (trace w ++ [Logger_info "Closing server..."; CancelToken_trigger])).
Proof.
  intros H. split; [reflexivity | split; [| split]].
  - run. cbn. destruct (bind_fault w); cbn; auto.
  - rewrite receive_handshake_keeps_listener. exact H.
  - run. cbn. rewrite H. cbn. norm_trace.
    unfold set_self, set_cancel_token, set_trace. cbn. rewrite H. reflexivity.
Qed.

(** ** Errors that end the handshake at the first attempt *)

(** X7.  Only a decryption error makes the handler read on.  When the first
    attempt raises anything else (the length error, a failed key agreement,
    a signature that does not recover a key), the handshake raises that
    exception after the one read and the calls of that attempt. *)
Theorem other_errors_are_not_retried w msg r1 e :
  read ENCRYPTED_AUTH_MSG_LEN (reader (conn w)) = (Return msg, r1) ->
  decode_result msg (privkey (self w)) = Raise e ->
  is_DecryptionError e = false ->
  receive_handshake w =
    (Raise e,
     world_after w r1
       (Reader_read ENCRYPTED_AUTH_MSG_LEN :: decode_calls msg (privkey (self w)))).
Proof.
  intros Hr Hd He. rewrite receive_handshake_unfold. cbn zeta.
  rewrite Hr, Hd. destruct e; [reflexivity | discriminate | reflexivity].
Qed.

(** X8.  The first read does not wait for a whole message.  When fewer
    than [ENCRYPTED_AUTH_MSG_LEN] bytes are there to be read (a first
    segment that is short, or nothing before the peer closes), the
    handshake raises the length error with the number of bytes received,
    after that one read and without calling a decoder; the bytes that
    arrive later are left unread. *)
Theorem short_first_read_is_length_error w :
  len (available (reader (conn w))) < ENCRYPTED_AUTH_MSG_LEN ->
  available (reader (conn w)) <> [] \/ at_end (reader (conn w)) = Eof ->
  exists r1,
    receive_handshake w =
      (Raise (AuthMsgTooShort (len (available (reader (conn w))))),
       world_after w r1 [Reader_read ENCRYPTED_AUTH_MSG_LEN])
    /\ pending (reader (conn w)) = available (reader (conn w)) ++ pending r1.
Proof.
  intros Hlt Hsome.
  destruct (read_short_returns _ _ Hlt Hsome) as (r1 & Hr).
  exists r1. split; [| exact (read_pending _ _ _ _ Hr)].
  rewrite receive_handshake_unfold. cbn zeta. rewrite Hr.
  destruct (decode_short (available (reader (conn w))) (privkey (self w)) Hlt)
    as [-> ->].
  reflexivity.
Qed.

(** ** Messages that have arrived in full *)

(** X10.  A plain message that has arrived is read alone: the one read
    takes its [ENCRYPTED_AUTH_MSG_LEN] bytes, the reply phase starts from
    them, and when the handshake is over the bytes that followed the
    message are still in the reader, for the peer to read. *)
Theorem plain_message_leaves_the_rest_unread w m tail decoded :
  0 < ENCRYPTED_AUTH_MSG_LEN ->
  buffer (reader (conn w)) = m ++ tail ->
  len m = ENCRYPTED_AUTH_MSG_LEN ->
  decode_result m (privkey (self w)) = Return decoded ->
  let rest := mkReader tail (incoming (reader (conn w))) (at_end (reader (conn w))) in
  receive_handshake w =
    reply_and_register (privkey (self w)) (decoded, m)
      (world_after w rest
         (Reader_read ENCRYPTED_AUTH_MSG_LEN :: decode_calls m (privkey (self w))))
  /\ reader (conn (snd (receive_handshake w))) = rest.
Proof.
  intros Hpos Hb Hm Hd rest.
  assert (Hrun : receive_handshake w =
    reply_and_register (privkey (self w)) (decoded, m)
      (world_after w rest
         (Reader_read ENCRYPTED_AUTH_MSG_LEN :: decode_calls m (privkey (self w))))).
  { rewrite receive_handshake_unfold. cbn zeta.
    rewrite (read_buffered _ _ m tail Hpos Hb Hm). fold rest.
    rewrite Hd. reflexivity. }
  split; [exact Hrun |]. rewrite Hrun.
  destruct decoded as [[ephem nonce] pub].
  destruct (reply_and_register_run (privkey (self w)) ephem nonce pub m
              (world_after w rest
                 (Reader_read ENCRYPTED_AUTH_MSG_LEN
                    :: decode_calls m (privkey (self w))))) as (ev & H).
  destruct (reply_and_register _ _ _) as [out w'].
  destruct H as (_ & Hrd & _). exact Hrd.
Qed.

(** X9.  An extended message that has arrived in full and whose two size
    bytes give its length minus 2.  The first read takes its first
    [ENCRYPTED_AUTH_MSG_LEN] bytes and the plain decoder is tried on them.
    When that attempt raises [DecryptionError], the second read asks for the
    rest and gets exactly it, the extended decoder receives the message
    unchanged, and the bytes after the message stay in the reader.  When the
    attempt raises another exception, that exception ends the run; when it
    succeeds, the run replies to those first bytes alone.  In these two
    cases the message is never decoded whole and its tail stays in the
    reader. *)
Theorem sized_extended_message_after_plain_attempt w m tail :
  2 <= ENCRYPTED_AUTH_MSG_LEN ->
  buffer (reader (conn w)) = m ++ tail ->
  ENCRYPTED_AUTH_MSG_LEN < len m ->
  big_endian_to_int (firstn 2 m) + 2 = len m ->
  let k := privkey (self w) in
  let head := firstn (Z.to_nat ENCRYPTED_AUTH_MSG_LEN) m in
  let inc := incoming (reader (conn w)) in
  let after_head :=
    mkReader (skipn (Z.to_nat ENCRYPTED_AUTH_MSG_LEN) m ++ tail) inc
             (at_end (reader (conn w))) in
  let rest := mkReader tail inc (at_end (reader (conn w))) in
  let first := Reader_read ENCRYPTED_AUTH_MSG_LEN :: decode_calls head k in
  let ev := first ++ Reader_read (len m - ENCRYPTED_AUTH_MSG_LEN)
                  :: decode_calls m k in
  decoder_call head k = Call_decode_auth_plain head k
  /\ decoder_call m k = Call_decode_auth_eip8 m k
  /\ receive_handshake w =
       match decode_result head k with
       | Return decoded =>
           reply_and_register k (decoded, head) (world_after w after_head first)
       | Raise DecryptionError =>
           match decode_result m k with
           | Return decoded => reply_and_register k (decoded, m) (world_after w rest ev)
           | Raise e => (Raise e, world_after w rest ev)
           | Blocked => (Blocked, world_after w rest ev)
           end
       | Raise e => (Raise e, world_after w after_head first)
       | Blocked => (Blocked, world_after w after_head first)
       end.
Proof.
  intros Hlen Hb Hlong Hsize k head inc after_head rest first ev.
  subst k inc first ev.
  assert (Hsplit : m = head ++ skipn (Z.to_nat ENCRYPTED_AUTH_MSG_LEN) m)
    by (symmetry; apply firstn_skipn).
  assert (Hhead : len head = ENCRYPTED_AUTH_MSG_LEN).
  { unfold head, len in *. rewrite length_firstn. lia. }
  assert (Htl : len (skipn (Z.to_nat ENCRYPTED_AUTH_MSG_LEN) m)
                = len m - ENCRYPTED_AUTH_MSG_LEN).
  { unfold len in *. rewrite length_skipn. lia. }
  assert (Hprefix : firstn 2 head = firstn 2 m).
  { unfold head. rewrite firstn_firstn. f_equal. lia. }
  split; [| split].
  - unfold decoder_call. rewrite Hhead, Z.eqb_refl. reflexivity.
  - unfold decoder_call.
    replace (len m =? ENCRYPTED_AUTH_MSG_LEN) with false; [reflexivity |].
    symmetry. apply Z.eqb_neq. lia.
  - rewrite receive_handshake_unfold. cbn zeta.
    assert (Hb1 : buffer (reader (conn w))
                  = head ++ (skipn (Z.to_nat ENCRYPTED_AUTH_MSG_LEN) m ++ tail)).
    { rewrite Hb, app_assoc, <- Hsplit. reflexivity. }
    assert (Hpos : 0 < ENCRYPTED_AUTH_MSG_LEN) by lia.
    rewrite (read_buffered _ _ _ _ Hpos Hb1 Hhead). fold after_head.
    destruct (decode_result head (privkey (self w))) as [decoded | e |];
      [reflexivity | | reflexivity].
    destruct e; try reflexivity.
    assert (Hrem : remaining_bytes head = len m - ENCRYPTED_AUTH_MSG_LEN).
    { unfold remaining_bytes. rewrite Hprefix. lia. }
    rewrite Hrem. unfold after_head.
    erewrite read_buffered; [| lia | reflexivity | exact Htl].
    cbn [incoming at_end]. fold rest. rewrite <- Hsplit.
    destruct (decode_result m (privkey (self w))); cbn; norm_trace; reflexivity.
Qed.

(** ** Reads and decoder calls of a run *)

Lemma decode_calls_no_read ct k : filter is_read_call (decode_calls ct k) = [].
Proof.
  unfold decode_calls, decode_authentication. run.
  repeat (step; cbn [fst snd]); reflexivity.
Qed.

(** The reply phase neither reads nor decodes. *)
Lemma reply_reads_nothing k ephem nonce pub msg w :
  exists ev,
    trace (snd (reply_and_register k (ephem, nonce, pub, msg) w)) = trace w ++ ev
    /\ filter is_read_call ev = []
    /\ filter is_decoder_call ev = [].
Proof.
  rewrite reply_and_register_unfold. cbn zeta.
  repeat (step; cbn [fst snd]);
    eexists; (split; [reflexivity | split; reflexivity]).
Qed.



(** X6.  A run reads from the connection once or twice, never more.  The
    first read asks for [ENCRYPTED_AUTH_MSG_LEN] bytes.  The count of the
    second read is the value of two bytes sent by the peer, minus
    [ENCRYPTED_AUTH_MSG_LEN], plus 2: it lies between
    [2 - ENCRYPTED_AUTH_MSG_LEN] and [65537 - ENCRYPTED_AUTH_MSG_LEN]. *)
Theorem handshake_reads_once_or_twice w :
  exists ev,
    let (out, w') := receive_handshake w in
    trace w' = trace w ++ ev
    /\ (filter is_read_call ev = [Reader_read ENCRYPTED_AUTH_MSG_LEN]
        \/ exists n,
             filter is_read_call ev
               = [Reader_read ENCRYPTED_AUTH_MSG_LEN; Reader_read n]
             /\ 2 - ENCRYPTED_AUTH_MSG_LEN <= n <= 65537 - ENCRYPTED_AUTH_MSG_LEN).
Proof.
  rewrite receive_handshake_unfold. cbn zeta.
  assert (Hbound : forall msg,
            2 - ENCRYPTED_AUTH_MSG_LEN <= remaining_bytes msg
            <= 65537 - ENCRYPTED_AUTH_MSG_LEN).
  { intros msg. unfold remaining_bytes.
    pose proof (big_endian_to_int_two_bytes msg). lia. }
  destruct (read ENCRYPTED_AUTH_MSG_LEN (reader (conn w))) as [[msg | e |] r1];
    try (eexists; split; [reflexivity | left; reflexivity]).
  assert (Hone : forall rd,
    exists ev,
      trace (world_after w rd
               (Reader_read ENCRYPTED_AUTH_MSG_LEN
                  :: decode_calls msg (privkey (self w)))) = trace w ++ ev
      /\ (filter is_read_call ev = [Reader_read ENCRYPTED_AUTH_MSG_LEN]
          \/ exists n,
               filter is_read_call ev
                 = [Reader_read ENCRYPTED_AUTH_MSG_LEN; Reader_read n]
               /\ 2 - ENCRYPTED_AUTH_MSG_LEN <= n
                  <= 65537 - ENCRYPTED_AUTH_MSG_LEN)).
  { intros rd. eexists. split; [reflexivity | left].
    cbn [filter is_read_call]. now rewrite decode_calls_no_read. }
  destruct (decode_result msg (privkey (self w))) as [[[ephem nonce] pub] | e |].
  - destruct (reply_reads_nothing (privkey (self w)) ephem nonce pub msg
                (world_after w r1
                   (Reader_read ENCRYPTED_AUTH_MSG_LEN
                      :: decode_calls msg (privkey (self w)))))
      as (ev & Htr & Hnoread & _).
    destruct (reply_and_register _ _ _) as [out w']. cbn [snd] in Htr.
    eexists. split.
    + rewrite Htr. cbn [trace world_after]. rewrite <- app_assoc. reflexivity.
    + left. cbn [app filter is_read_call].
      now rewrite filter_app, decode_calls_no_read, Hnoread.
  - destruct e; try apply Hone.
    assert (Htwo : forall l, filter is_read_call l = [] ->
      filter is_read_call
        (Reader_read ENCRYPTED_AUTH_MSG_LEN
           :: decode_calls msg (privkey (self w))
           ++ [Reader_read (remaining_bytes msg)] ++ l)
      = [Reader_read ENCRYPTED_AUTH_MSG_LEN; Reader_read (remaining_bytes msg)]).
    { intros l Hl. cbn [filter is_read_call app].
      rewrite filter_app, decode_calls_no_read. cbn [filter is_read_call app].
      now rewrite Hl. }
    destruct (read (remaining_bytes msg) r1) as [[extra | e |] r2].
    + destruct (decode_result (msg ++ extra) (privkey (self w)))
        as [[[ephem nonce] pub] | e |].
      * destruct (reply_reads_nothing (privkey (self w)) ephem nonce pub
                    (msg ++ extra)
                    (world_after w r2
                       (Reader_read ENCRYPTED_AUTH_MSG_LEN
                          :: decode_calls msg (privkey (self w))
                          ++ [Reader_read (remaining_bytes msg)]
                          ++ decode_calls (msg ++ extra) (privkey (self w)))))
          as (ev & Htr & Hnoread & _).
        destruct (reply_and_register _ _ _) as [out w']. cbn [snd] in Htr.
        eexists. split.
        -- rewrite Htr. cbn [trace world_after]. rewrite <- app_assoc. reflexivity.
        -- right. exists (remaining_bytes msg). split; [| apply Hbound].
           rewrite filter_app, Htwo, Hnoread by apply decode_calls_no_read.
           reflexivity.
      * eexists. split; [reflexivity | right].
        exists (remaining_bytes msg). split; [| apply Hbound].
        apply Htwo, decode_calls_no_read.
      * eexists. split; [reflexivity | right].
        exists (remaining_bytes msg). split; [| apply Hbound].
        apply Htwo, decode_calls_no_read.
    + eexists. split; [reflexivity | right].
      exists (remaining_bytes msg). split; [| apply Hbound].
      rewrite <- (app_nil_r [Reader_read (remaining_bytes msg)]).
      now apply Htwo.
    + eexists. split; [reflexivity | right].
      exists (remaining_bytes msg). split; [| apply Hbound].
      rewrite <- (app_nil_r [Reader_read (remaining_bytes msg)]).
      now apply Htwo.
  - apply Hone.
Qed.

(** ** What a handshake that returns has done *)

(** X2.  A handshake returns only after every step succeeded, and then it
    has added exactly one peer, at the end of the pool and in front of no
    older peer.  The peer is bound to the node made of the decoded initiator
    public key and of the first two components of the peer name (the two
    extra components of an IPv6 name are dropped); it carries the server's
    private key, chain database and network id, the accepted connection,
    and the four secrets [derive_secrets] returned for the decoded nonce,
    the responder nonce, the recovered ephemeral key, the bytes read and
    the ack ciphertext.  That ciphertext is what has been written to the
    connection.  Nothing else of the server has changed. *)
Theorem returned_handshake_has_registered_the_peer w w' :
  receive_handshake w = (Return tt, w') ->
  exists msg ephem nonce pub ip port rest responder ack_msg ack
         aes mac egress ingress,
    let k := privkey (self w) in
    let rn := map (os_random (conn w)) (seq 0 (Z.to_nat HASH_LEN)) in
    let remote := mkNode pub (mkAddress ip port) in
    let peer := mkETHPeer remote k (fd (conn w)) (fd (conn w))
                          aes mac egress ingress
                          (chaindb (self w)) (network_id (self w)) in
    pending (reader (conn w)) = msg ++ pending (reader (conn w'))
    /\ decode_result msg k = Return (ephem, nonce, pub)
    /\ peername (writer (conn w)) = Some (ip, port, rest)
    /\ HandshakeResponder remote k = Ok responder
    /\ create_auth_ack_message responder rn = Ok ack_msg
    /\ encrypt_auth_ack_message responder ack_msg = Ok ack
    /\ derive_secrets responder nonce rn ephem msg ack
       = Ok (aes, mac, egress, ingress)
    /\ writer (conn w') = wrote (writer (conn w)) ack
    /\ self w' = set_peer_pool
                   (mkPeerPool (connected_nodes (peer_pool (self w)) ++ [peer])
                               (pool_stopped (peer_pool (self w))))
                   (self w).
Proof.
  destruct (receive_handshake_shape w)
    as [out rd pre Hout Hpre | rd pre msg [[ephem nonce] pub] Hpre Hpend Hdec].
  - intros H. injection H as -> _. discriminate.
  - rewrite reply_and_register_unfold. cbn zeta.
    cbn [conn world_after writer set_reader self fd].
    repeat (step; cbn [fst snd]); intros H; try discriminate.
    injection H as <-.
    do 14 eexists. cbn zeta.
    repeat split; try eassumption; try reflexivity.
Qed.

(** X3.  A run hands data to the writer at most once, and what it hands
    over is the ack ciphertext: the bytes [encrypt_auth_ack_message] returns
    for the ack created with the responder nonce of this run, by the
    responder constructed for the node made of the initiator public key
    that the decoding phase yields for the bytes read from this connection
    and of the address in the peer name.  A peer whose auth message does
    not decode is sent nothing.  A run without write leaves the writer as
    it was. *)
Theorem handshake_writes_only_the_ack w :
  exists ev,
    let (out, w') := receive_handshake w in
    let k := privkey (self w) in
    let rn := map (os_random (conn w)) (seq 0 (Z.to_nat HASH_LEN)) in
    trace w' = trace w ++ ev
    /\ match filter is_write_call ev with
       | [] => writer (conn w') = writer (conn w)
       | [Writer_write ack] =>
           writer (conn w') = wrote (writer (conn w)) ack
           /\ exists msg ephem nonce pub ip port rest responder ack_msg,
                decoding_yields w msg (ephem, nonce, pub)
                /\ peername (writer (conn w)) = Some (ip, port, rest)
                /\ HandshakeResponder (mkNode pub (mkAddress ip port)) k
                   = Ok responder
                /\ create_auth_ack_message responder rn = Ok ack_msg
                /\ encrypt_auth_ack_message responder ack_msg = Ok ack
       | _ => False
       end
    /\ ((forall msg decoded, ~ decoding_yields w msg decoded) ->
        filter is_write_call ev = []).
Proof.
  destruct (receive_handshake_run w)
    as [out rd pre Hout Hpre Hno | rd pre msg [[ephem nonce] pub] Hpre Hpend Hy].
  - exists pre. cbn zeta.
    rewrite (filter_disjoint is_decode_phase_event is_write_call pre);
      [repeat split; reflexivity | | exact Hpre].
    intros e. destruct e; cbn; congruence.
  - assert (Hnow : filter is_write_call pre = []).
    { apply (filter_disjoint is_decode_phase_event); [| exact Hpre].
      intros e. destruct e; cbn; congruence. }
    rewrite reply_and_register_unfold. cbn zeta.
    cbn [conn world_after writer set_reader self fd os_random].
    repeat (step; cbn [fst snd]);
      eexists; (split; [cbn [trace reply_world world_logged world_after];
                        rewrite <- app_assoc; reflexivity |]);
      rewrite filter_app, Hnow; cbn;
      (split; [| intros Hno; destruct (Hno _ _ Hy)]);
      try reflexivity.
    all: split; [reflexivity |];
      do 9 eexists; repeat split; try eassumption.
Qed.

(** ** Failures of the reply phase *)

Lemma decode_phase_no_write e :
  is_decode_phase_event e = true -> is_write_call e = false.
Proof. destruct e; cbn; congruence. Qed.


(** X12.  When the flush of the ack fails, the handshake raises the
    exception of [drain]: the ack has been handed to the writer, but the
    secrets are not derived, no peer is constructed and the server is left
    as it was.  A run that ends before the write leaves the writer
    untouched. *)
Theorem failed_drain_stops_before_derivation w e :
  drain_fault (writer (conn w)) = Some e ->
  exists ev,
    let (out, w') := receive_handshake w in
    trace w' = trace w ++ ev
    /\ is_return out = false
    /\ self w' = self w
    /\ filter is_derive_call ev = []
    /\ filter is_peer_event ev = []
    /\ match filter is_write_call ev with
       | [] => writer (conn w') = writer (conn w)
       | _ =>
           out = Raise e
           /\ exists pre ack,
                ev = pre ++ [Writer_write ack; Writer_drain]
                /\ writer (conn w') = wrote (writer (conn w)) ack
       end.
Proof.
  intros Hfault.
  destruct (receive_handshake_shape w)
    as [out rd pre Hout Hpre | rd pre msg [[ephem nonce] pub] Hpre Hpend Hdec].
  - exists pre. cbn.
    rewrite (filter_disjoint _ _ _ decode_phase_no_derive Hpre),
      (filter_disjoint _ _ _ decode_phase_no_peer Hpre),
      (filter_disjoint _ _ _ decode_phase_no_write Hpre).
    repeat split; auto.
  - pose proof (filter_disjoint _ _ _ decode_phase_no_derive Hpre) as H1.
    pose proof (filter_disjoint _ _ _ decode_phase_no_peer Hpre) as H2.
    pose proof (filter_disjoint _ _ _ decode_phase_no_write Hpre) as H3.
    rewrite reply_and_register_unfold. cbn zeta.
    cbn [conn world_after writer set_reader self fd]. rewrite Hfault.
    repeat (step; cbn [fst snd]);
      eexists; (split; [cbn [trace reply_world world_logged world_after];
                        rewrite <- app_assoc; reflexivity |]);
      rewrite !filter_app, H1, H2, H3; cbn;
      repeat split; try reflexivity.
    match goal with
    | |- exists _ _, pre ++ ?e1 :: ?e2 :: ?e3 :: ?e4 :: ?e5 :: _ = _ /\ _ =>
        exists (pre ++ [e1; e2; e3; e4; e5])
    end.
    eexists. rewrite <- app_assoc. split; reflexivity.
Qed.

(** ** The handshake and the life cycle of the server *)

(** X4.  A handshake never looks at the cancellation token nor at the
    listening handle: with any other token and handle the run has the same
    outcome and the same trace, leaves the connection in the same state and
    registers the same peer.  In particular a handshake in flight is not
    aborted by a triggered token or a closed listener. *)
Theorem handshake_ignores_token_and_listener w tok l :
  receive_handshake (set_self (with_lifecycle tok l (self w)) w) =
    let (out, w') := receive_handshake w in
    (out, set_self (with_lifecycle tok l (self w')) w').
Proof.
  rewrite !receive_handshake_unfold. cbn zeta.
  cbn [self conn set_self with_lifecycle set__server set_cancel_token privkey].
  destruct (read ENCRYPTED_AUTH_MSG_LEN (reader (conn w))) as [[msg | e |] r1];
    try reflexivity.
  assert (Hreply : forall decoded m rd ev,
    reply_and_register (privkey (self w)) (decoded, m)
      (world_after (set_self (with_lifecycle tok l (self w)) w) rd ev) =
    let (out, w') :=
      reply_and_register (privkey (self w)) (decoded, m) (world_after w rd ev) in
    (out, set_self (with_lifecycle tok l (self w')) w')).
  { intros [[ephem nonce] pub] m rd ev.
    rewrite !reply_and_register_unfold. cbn zeta.
    cbn [self conn set_self with_lifecycle set__server set_cancel_token
         world_after writer set_reader fd chaindb network_id peer_pool].
    repeat (step; cbn [fst snd]); reflexivity. }
  destruct (decode_result msg (privkey (self w))) as [decoded | e |];
    [apply Hreply | | reflexivity].
  destruct e; try reflexivity.
  destruct (read (remaining_bytes msg) r1) as [[extra | e |] r2]; try reflexivity.
  destruct (decode_result (msg ++ extra) (privkey (self w))) as [decoded | e |];
    [apply Hreply | reflexivity | reflexivity].
Qed.



End Properties.

(** * Runs of the instance *)

#[local] Existing Instance Toy.collaborators.

(** The plain message is accepted: the handshake returns and one peer is
    registered. *)
Example plain_handshake_registers_peer :
  fst (receive_handshake Toy.w_plain) = Return tt
  /\ List.length (connected_nodes (peer_pool (self (snd (receive_handshake Toy.w_plain)))))
     = 1%nat.
Proof. vm_compute. split; reflexivity. Qed.

(** The extended message is accepted after the fallback: 307 bytes are
    read, the plain decoder fails, the 50 bytes announced are read, and the
    extended decoder is given the 357 bytes. *)
Example extended_handshake_registers_peer :
  fst (receive_handshake Toy.w_eip8) = Return tt
  /\ firstn 4 (trace (snd (receive_handshake Toy.w_eip8)))
     = [Reader_read 307;
        Call_decode_auth_plain Toy.sized_head Toy.local_privkey;
        Reader_read 50;
        Call_decode_auth_eip8 Toy.auth_eip8_sized Toy.local_privkey]
  /\ List.length (connected_nodes (peer_pool (self (snd (receive_handshake Toy.w_eip8)))))
     = 1%nat.
Proof. vm_compute. repeat split; reflexivity. Qed.

(** A buffer of ten bytes is refused before any call. *)
Lemma decode_authentication_too_short_witness :
  len (firstn 10 Toy.auth_plain) < ENCRYPTED_AUTH_MSG_LEN
  /\ decode_authentication (firstn 10 Toy.auth_plain) Toy.local_privkey []
     = (Raise (AuthMsgTooShort (len (firstn 10 Toy.auth_plain))), []).
Proof.
  assert (H : len (firstn 10 Toy.auth_plain) < ENCRYPTED_AUTH_MSG_LEN)
    by (vm_compute; reflexivity).
  exact (conj H (decode_authentication_too_short _ Toy.local_privkey [] H)).
Defined.

(** The plain message, 307 bytes long, goes to the plain decoder. *)
Lemma decode_authentication_dispatch_witness :
  ENCRYPTED_AUTH_MSG_LEN <= len Toy.auth_plain
  /\ exists rest,
       snd (decode_authentication Toy.auth_plain Toy.local_privkey [])
         = [] ++ (if len Toy.auth_plain =? ENCRYPTED_AUTH_MSG_LEN
                  then Call_decode_auth_plain Toy.auth_plain Toy.local_privkey
                  else Call_decode_auth_eip8 Toy.auth_plain Toy.local_privkey) :: rest
       /\ filter is_decoder_call rest = []
       /\ match (if len Toy.auth_plain =? ENCRYPTED_AUTH_MSG_LEN
                 then decode_auth_plain Toy.auth_plain Toy.local_privkey
                 else decode_auth_eip8 Toy.auth_plain Toy.local_privkey) with
          | Err e =>
              fst (decode_authentication Toy.auth_plain Toy.local_privkey [])
                = Raise e /\ rest = []
          | Ok _ => True
          end.
Proof.
  assert (H : ENCRYPTED_AUTH_MSG_LEN <= len Toy.auth_plain)
    by (vm_compute; discriminate).
  exact (conj H (decode_authentication_dispatch Toy.auth_plain Toy.local_privkey [] H)).
Defined.

(** The payload of the plain message and the key recovered from it. *)
Lemma decode_authentication_recovers_from_xor_witness :
  ENCRYPTED_AUTH_MSG_LEN <= len Toy.auth_plain
  /\ decoder_result Toy.auth_plain Toy.local_privkey
     = Ok (Toy.signature, Toy.initiator_pubkey, Toy.initiator_nonce, 4)
  /\ decode_authentication Toy.auth_plain Toy.local_privkey []
     = match ecdh_agree Toy.local_privkey Toy.initiator_pubkey with
       | Err e =>
           (Raise e, [] ++ [decoder_call Toy.auth_plain Toy.local_privkey;
                            Call_ecdh_agree Toy.local_privkey Toy.initiator_pubkey])
       | Ok shared_secret =>
           match sxor shared_secret Toy.initiator_nonce with
           | Err e =>
               (Raise e, [] ++ [decoder_call Toy.auth_plain Toy.local_privkey;
                                Call_ecdh_agree Toy.local_privkey Toy.initiator_pubkey;
                                Call_sxor shared_secret Toy.initiator_nonce])
           | Ok x =>
               let calls :=
                 [decoder_call Toy.auth_plain Toy.local_privkey;
                  Call_ecdh_agree Toy.local_privkey Toy.initiator_pubkey;
                  Call_sxor shared_secret Toy.initiator_nonce;
                  Call_recover_public_key_from_msg_hash Toy.signature x] in
               match recover_public_key_from_msg_hash Toy.signature x with
               | Err e => (Raise e, [] ++ calls)
               | Ok ephem_pubkey =>
                   (Return (ephem_pubkey, Toy.initiator_nonce, Toy.initiator_pubkey),
                    [] ++ calls)
               end
           end
       end.
Proof.
  assert (H : ENCRYPTED_AUTH_MSG_LEN <= len Toy.auth_plain)
    by (vm_compute; discriminate).
  assert (Hd : decoder_result Toy.auth_plain Toy.local_privkey
               = Ok (Toy.signature, Toy.initiator_pubkey, Toy.initiator_nonce, 4))
    by (vm_compute; reflexivity).
  exact (conj H (conj Hd
    (decode_authentication_recovers_from_xor
       Toy.auth_plain Toy.local_privkey [] _ _ _ _ H Hd))).
Defined.

(** C2, as stated, fails: with a hash function applied to the XOR, the key
    recovered from the plain message is not the key the code returns. *)
Lemma recovery_applies_no_hash :
  fst (decode_authentication Toy.auth_plain Toy.local_privkey [])
  <> decode_authentication_spec Toy.masking_hash Toy.auth_plain Toy.local_privkey.
Proof. vm_compute. discriminate. Qed.

(** A damaged plain message of 307 bytes, after which the peer closes. *)
Lemma exact_length_decryption_failure_witness :
  len (pending (reader (conn Toy.w_corrupt))) = ENCRYPTED_AUTH_MSG_LEN
  /\ decode_auth_plain (pending (reader (conn Toy.w_corrupt)))
                       (privkey (self Toy.w_corrupt)) = Err DecryptionError
  /\ exists ev,
       let (out, w') := receive_handshake Toy.w_corrupt in
       let r := reader (conn Toy.w_corrupt) in
       let msg := pending r in
       let plain := Call_decode_auth_plain msg (privkey (self Toy.w_corrupt)) in
       trace w' = trace Toy.w_corrupt ++ Reader_read ENCRYPTED_AUTH_MSG_LEN :: ev
       /\ filter is_eip8_call ev = []
       /\ is_return out = false
       /\ self w' = self Toy.w_corrupt
       /\ if len (available r) =? ENCRYPTED_AUTH_MSG_LEN then
            let retried := (remaining_bytes msg =? 0) || is_eof (at_end r) in
            ev = plain :: Reader_read (remaining_bytes msg)
                       :: (if retried then [plain] else [])
            /\ out = (if retried then Raise DecryptionError
                      else match at_end r with
                           | Broken e => Raise e
                           | _ => Blocked
                           end)
          else ev = [] /\ out = Raise (AuthMsgTooShort (len (available r))).
Proof.
  assert (H1 : len (pending (reader (conn Toy.w_corrupt))) = ENCRYPTED_AUTH_MSG_LEN)
    by (vm_compute; reflexivity).
  assert (H2 : decode_auth_plain (pending (reader (conn Toy.w_corrupt)))
                 (privkey (self Toy.w_corrupt)) = Err DecryptionError)
    by (vm_compute; reflexivity).
  exact (conj H1 (conj H2
    (exact_length_decryption_failure_never_reaches_eip8 Toy.w_corrupt H1 H2))).
Defined.

(** C1, as stated, fails twice.  On a connection the peer keeps open the
    failure is not terminal: nothing is raised, the handshake stays
    suspended in the second read.  And when the 307 bytes arrive in two
    segments the plain decoding is not attempted at all. *)
Lemma exact_length_failure_suspends_or_skips_plain :
  ~ (len (pending (reader (conn Toy.w_corrupt_open))) = ENCRYPTED_AUTH_MSG_LEN ->
     decode_auth_plain (pending (reader (conn Toy.w_corrupt_open)))
                       (privkey (self Toy.w_corrupt_open)) = Err DecryptionError ->
     exists e, fst (receive_handshake Toy.w_corrupt_open) = Raise e)
  /\ ~ (len (pending (reader (conn Toy.w_corrupt_in_two))) = ENCRYPTED_AUTH_MSG_LEN ->
        exists ev,
          trace (snd (receive_handshake Toy.w_corrupt_in_two))
          = Reader_read ENCRYPTED_AUTH_MSG_LEN
              :: Call_decode_auth_plain
                   (pending (reader (conn Toy.w_corrupt_in_two)))
                   (privkey (self Toy.w_corrupt_in_two))
              :: ev).
Proof.
  split.
  - intros H. destruct H as [e He]; [vm_compute; reflexivity .. |].
    vm_compute in He. discriminate.
  - intros H. destruct H as [ev Hev]; [vm_compute; reflexivity |].
    assert (Hrun : trace (snd (receive_handshake Toy.w_corrupt_in_two))
                   = [Reader_read 307]) by (vm_compute; reflexivity).
    rewrite Hrun in Hev. discriminate.
Qed.

(** The extended message of 357 bytes: 307 are read, 50 are announced and
    have arrived. *)
Lemma decryption_failure_retries_witness :
  read ENCRYPTED_AUTH_MSG_LEN (reader (conn Toy.w_eip8))
    = (Return Toy.sized_head, Toy.sized_rest)
  /\ decode_result Toy.sized_head (privkey (self Toy.w_eip8)) = Raise DecryptionError
  /\ exists ev,
       let (out, w') := receive_handshake Toy.w_eip8 in
       let k := privkey (self Toy.w_eip8) in
       let n := big_endian_to_int (firstn 2 Toy.sized_head)
                - ENCRYPTED_AUTH_MSG_LEN + 2 in
       trace w' = trace Toy.w_eip8 ++ Reader_read ENCRYPTED_AUTH_MSG_LEN
                    :: decode_calls Toy.sized_head k ++ Reader_read n :: ev
       /\ match read n Toy.sized_rest with
          | (Return extra, r2) =>
              extra = (if n =? 0 then []
                       else if n <? 0 then pending Toy.sized_rest
                       else firstn (Z.to_nat n) (available Toy.sized_rest))
              /\ (len extra = n \/ n <= 0 \/ len (available Toy.sized_rest) < n)
              /\ (exists ev', ev = decoder_call (Toy.sized_head ++ extra) k :: ev'
                              /\ filter is_decoder_call ev' = [])
              /\ (extra = []
                  \/ decoder_call (Toy.sized_head ++ extra) k
                     = Call_decode_auth_eip8 (Toy.sized_head ++ extra) k)
          | (Raise e, _) => ev = [] /\ out = Raise e
          | (Blocked, _) => ev = [] /\ out = Blocked
          end.
Proof.
  assert (H1 : read ENCRYPTED_AUTH_MSG_LEN (reader (conn Toy.w_eip8))
               = (Return Toy.sized_head, Toy.sized_rest))
    by (vm_compute; reflexivity).
  assert (H2 : decode_result Toy.sized_head (privkey (self Toy.w_eip8))
               = Raise DecryptionError) by (vm_compute; reflexivity).
  exact (conj H1 (conj H2
    (decryption_failure_retries_with_declared_remainder
       Toy.w_eip8 Toy.sized_head Toy.sized_rest H1 H2))).
Defined.

(** C3, as stated, fails: the extended message is valid and announces 50
    more bytes, 20 of them have arrived when the second read is issued, and
    the retry decodes the 327 bytes at hand. *)
Lemma segmented_tail_is_not_read_in_full :
  ~ (decode_result Toy.sized_head (privkey (self Toy.w_segmented))
       = Raise DecryptionError ->
     exists extra ev,
       len extra = big_endian_to_int (firstn 2 Toy.sized_head)
                   - ENCRYPTED_AUTH_MSG_LEN + 2
       /\ trace (snd (receive_handshake Toy.w_segmented))
          = Reader_read ENCRYPTED_AUTH_MSG_LEN
              :: Call_decode_auth_plain Toy.sized_head (privkey (self Toy.w_segmented))
              :: Reader_read (big_endian_to_int (firstn 2 Toy.sized_head)
                              - ENCRYPTED_AUTH_MSG_LEN + 2)
              :: Call_decode_auth_eip8 (Toy.sized_head ++ extra)
                                       (privkey (self Toy.w_segmented))
              :: ev).
Proof.
  intros H.
  destruct H as (extra & ev & Hlen & Htr); [vm_compute; reflexivity |].
  assert (Hrun : trace (snd (receive_handshake Toy.w_segmented))
                 = [Reader_read 307;
                    Call_decode_auth_plain Toy.sized_head Toy.local_privkey;
                    Reader_read 50;
                    Call_decode_auth_eip8
                      (Toy.sized_head ++ firstn 20 (skipn 307 Toy.auth_eip8_sized))
                      Toy.local_privkey])
    by (vm_compute; reflexivity).
  rewrite Hrun in Htr.
  apply (f_equal (fun t => nth 3 t CancelToken_wait)) in Htr.
  cbn [nth] in Htr. injection Htr as Hct. subst extra.
  vm_compute in Hlen. discriminate.
Qed.

(** An extended message whose size bytes announce 16 bytes: the count of
    the second read is -289. *)
Lemma negative_remainder_witness :
  read ENCRYPTED_AUTH_MSG_LEN (reader (conn Toy.w_undersized))
    = (Return Toy.undersized_head, Toy.undersized_rest)
  /\ decode_result Toy.undersized_head (privkey (self Toy.w_undersized))
     = Raise DecryptionError
  /\ big_endian_to_int (firstn 2 Toy.undersized_head) - ENCRYPTED_AUTH_MSG_LEN + 2 < 0
  /\ let k := privkey (self Toy.w_undersized) in
     let n := big_endian_to_int (firstn 2 Toy.undersized_head)
              - ENCRYPTED_AUTH_MSG_LEN + 2 in
     let whole := Toy.undersized_head ++ pending Toy.undersized_rest in
     match at_end Toy.undersized_rest with
     | Eof =>
         match decode_result whole k with
         | Return decoded =>
             receive_handshake Toy.w_undersized =
               reply_and_register k (decoded, whole)
                 (world_after Toy.w_undersized (mkReader [] [] Eof)
                    (Reader_read ENCRYPTED_AUTH_MSG_LEN
                       :: decode_calls Toy.undersized_head k ++ Reader_read n
                       :: decode_calls whole k))
         | Raise e => fst (receive_handshake Toy.w_undersized) = Raise e
         | Blocked => fst (receive_handshake Toy.w_undersized) = Blocked
         end
         /\ (pending Toy.undersized_rest <> []
             \/ fst (receive_handshake Toy.w_undersized) = Raise DecryptionError)
     | Broken e => fst (receive_handshake Toy.w_undersized) = Raise e
     | Open => fst (receive_handshake Toy.w_undersized) = Blocked
     end.
Proof.
  assert (H1 : read ENCRYPTED_AUTH_MSG_LEN (reader (conn Toy.w_undersized))
               = (Return Toy.undersized_head, Toy.undersized_rest))
    by (vm_compute; reflexivity).
  assert (H2 : decode_result Toy.undersized_head (privkey (self Toy.w_undersized))
               = Raise DecryptionError) by (vm_compute; reflexivity).
  assert (H3 : big_endian_to_int (firstn 2 Toy.undersized_head)
               - ENCRYPTED_AUTH_MSG_LEN + 2 < 0) by (vm_compute; reflexivity).
  exact (conj H1 (conj H2 (conj H3
    (negative_remainder_reads_to_end_of_stream
       Toy.w_undersized Toy.undersized_head Toy.undersized_rest H1 H2 H3)))).
Defined.

(** C4, as stated, fails: with a negative count the second read returns the
    50 bytes that follow, the extended decoder accepts the 357 bytes, and
    the handshake returns with the peer registered. *)
Lemma undersized_prefix_handshake_succeeds :
  ~ (decode_result Toy.undersized_head (privkey (self Toy.w_undersized))
       = Raise DecryptionError ->
     big_endian_to_int (firstn 2 Toy.undersized_head) - ENCRYPTED_AUTH_MSG_LEN + 2 < 0 ->
     is_return (fst (receive_handshake Toy.w_undersized)) = false
     /\ connected_nodes (peer_pool (self (snd (receive_handshake Toy.w_undersized))))
        = connected_nodes (peer_pool (self Toy.w_undersized))).
Proof.
  intros H.
  destruct H as [Hret _]; [vm_compute; reflexivity | vm_compute; reflexivity |].
  vm_compute in Hret. discriminate.
Qed.

(** The plain handshake: the decoding phase yields the payload of the
    message, every step of the reply succeeds, and the secrets are derived
    once, from the ack that was flushed. *)
Lemma secrets_derived_after_ack_flushed_witness :
  decoding_yields Toy.w_plain Toy.auth_plain
    (Toy.ephemeral_pubkey, Toy.initiator_nonce, Toy.initiator_pubkey)
  /\ 0 <= HASH_LEN
  /\ drain_fault (writer (conn Toy.w_plain)) = None
  /\ exists ev,
       trace (snd (receive_handshake Toy.w_plain)) = trace Toy.w_plain ++ ev
       /\ filter is_derive_call ev
          = [Call_derive_secrets Toy.initiator_nonce Toy.responder_nonce
               Toy.ephemeral_pubkey Toy.auth_plain Toy.ack_ciphertext].
Proof.
  assert (Hy : decoding_yields Toy.w_plain Toy.auth_plain
                 (Toy.ephemeral_pubkey, Toy.initiator_nonce, Toy.initiator_pubkey))
    by (apply (first_attempt_decodes _ _ (mkReader [] [] Open));
        vm_compute; reflexivity).
  assert (Hlen : 0 <= HASH_LEN) by (vm_compute; discriminate).
  assert (Hdrain : drain_fault (writer (conn Toy.w_plain)) = None) by reflexivity.
  split; [exact Hy | split; [exact Hlen | split; [exact Hdrain |]]].
  destruct (secrets_derived_after_ack_flushed Toy.w_plain) as (ev & H).
  destruct (receive_handshake Toy.w_plain) as [out w'].
  destruct H as (Htr & _ & Hpos).
  exists ev. split; [exact Htr |].
  exact (Hpos Toy.auth_plain Toy.ephemeral_pubkey Toy.initiator_nonce
           Toy.initiator_pubkey "10.0.0.2"%string 51000 []
           (mkNode Toy.initiator_pubkey (mkAddress "10.0.0.2" 51000),
            Toy.local_privkey)
           Toy.ack_message Toy.ack_ciphertext
           Hy eq_refl eq_refl Hlen eq_refl eq_refl Hdrain).
Defined.

(** C7, as stated, fails: the connection of the damaged message has its
    handshake, and that handshake derives no secrets at all, not once: it
    raises [DecryptionError] before the reply. *)
Lemma failed_handshake_derives_no_secrets :
  ~ (exists d,
       filter is_derive_call (trace (snd (receive_handshake Toy.w_corrupt))) = [d]).
Proof.
  intros (d & H). vm_compute in H. discriminate H.
Qed.

(** The damaged plain message makes the handshake raise. *)
Lemma failed_handshake_is_contained_witness :
  receive_handshake Toy.w_corrupt
    = (Raise DecryptionError, snd (receive_handshake Toy.w_corrupt))
  /\ is_return (Raise DecryptionError : outcome unit) = false
  /\ (self (snd (receive_handshake Toy.w_corrupt)) = self Toy.w_corrupt
      /\ bind_fault (snd (receive_handshake Toy.w_corrupt)) = bind_fault Toy.w_corrupt
      /\ (exists ev,
            trace (snd (receive_handshake Toy.w_corrupt)) = trace Toy.w_corrupt ++ ev
            /\ filter is_peer_event ev = [])
      /\ forall c t,
           receive_handshake
             (mkWorld (self (snd (receive_handshake Toy.w_corrupt))) c
                      (bind_fault (snd (receive_handshake Toy.w_corrupt))) t)
           = receive_handshake
               (mkWorld (self Toy.w_corrupt) c (bind_fault Toy.w_corrupt) t)).
Proof.
  assert (H1 : receive_handshake Toy.w_corrupt
               = (Raise DecryptionError, snd (receive_handshake Toy.w_corrupt)))
    by (vm_compute; reflexivity).
  assert (H2 : is_return (Raise DecryptionError : outcome unit) = false)
    by reflexivity.
  exact (conj H1 (conj H2
    (failed_handshake_is_contained Toy.w_corrupt (Raise DecryptionError)
       (snd (receive_handshake Toy.w_corrupt)) H1 H2))).
Defined.

(** A started server is stopped. *)
Lemma stop_effects_in_order_witness :
  _server (self Toy.w_plain) = Some Listening
  /\ fst (stop Toy.w_plain) = Return tt
  /\ trace (snd (stop Toy.w_plain))
     = [Logger_info "Closing server..."; CancelToken_trigger; Server_close;
        Server_wait_closed; PeerPool_stop].
Proof.
  assert (H : _server (self Toy.w_plain) = Some Listening) by reflexivity.
  split; [exact H |].
  rewrite (stop_effects_in_order Toy.w_plain Listening H).
  split; reflexivity.
Defined.

(** A server that was never started is stopped. *)
Lemma stop_before_start_witness :
  _server (self Toy.w_not_started) = None
  /\ fst (stop Toy.w_not_started) = Raise (OtherError "AttributeError")
  /\ trace (snd (stop Toy.w_not_started))
     = [Logger_info "Closing server..."; CancelToken_trigger]
  /\ triggered (cancel_token (self (snd (stop Toy.w_not_started)))) = true
  /\ pool_stopped (peer_pool (self (snd (stop Toy.w_not_started)))) = false.
Proof.
  assert (H : _server (self Toy.w_not_started) = None) by reflexivity.
  split; [exact H |].
  destruct (stop_before_start_raises_after_trigger Toy.w_not_started H)
    as (_ & _ & _ & ->).
  repeat split; reflexivity.
Defined.

(** C10, as stated, fails: the failed call has triggered the cancellation
    token. *)
Lemma stop_before_start_leaves_token_triggered :
  ~ (forall e w',
       stop Toy.w_not_started = (Raise e, w') ->
       triggered (cancel_token (self w'))
       = triggered (cancel_token (self Toy.w_not_started))).
Proof.
  intros H.
  specialize (H (OtherError "AttributeError") (snd (stop Toy.w_not_started)) eq_refl).
  vm_compute in H. discriminate.
Qed.

(** ** Runs for the further properties *)

(** The plain message arrives in two segments: the first read returns the
    ten bytes of the first one and the length error is not retried. *)
Lemma other_errors_are_not_retried_witness :
  read ENCRYPTED_AUTH_MSG_LEN (reader (conn Toy.w_plain_in_two))
    = (Return Toy.ten_bytes, Toy.after_ten_bytes)
  /\ decode_result Toy.ten_bytes (privkey (self Toy.w_plain_in_two))
     = Raise (AuthMsgTooShort 10)
  /\ is_DecryptionError (AuthMsgTooShort 10) = false
  /\ receive_handshake Toy.w_plain_in_two =
       (Raise (AuthMsgTooShort 10),
        world_after Toy.w_plain_in_two Toy.after_ten_bytes
          (Reader_read ENCRYPTED_AUTH_MSG_LEN
             :: decode_calls Toy.ten_bytes (privkey (self Toy.w_plain_in_two)))).
Proof.
  assert (H1 : read ENCRYPTED_AUTH_MSG_LEN (reader (conn Toy.w_plain_in_two))
               = (Return Toy.ten_bytes, Toy.after_ten_bytes))
    by (vm_compute; reflexivity).
  assert (H2 : decode_result Toy.ten_bytes (privkey (self Toy.w_plain_in_two))
               = Raise (AuthMsgTooShort 10)) by (vm_compute; reflexivity).
  assert (H3 : is_DecryptionError (AuthMsgTooShort 10) = false) by reflexivity.
  exact (conj H1 (conj H2 (conj H3
    (other_errors_are_not_retried Toy.w_plain_in_two Toy.ten_bytes
       Toy.after_ten_bytes (AuthMsgTooShort 10) H1 H2 H3)))).
Defined.

Lemma short_first_read_is_length_error_witness :
  len (available (reader (conn Toy.w_plain_in_two))) < ENCRYPTED_AUTH_MSG_LEN
  /\ (available (reader (conn Toy.w_plain_in_two)) <> []
      \/ at_end (reader (conn Toy.w_plain_in_two)) = Eof)
  /\ exists r1,
       receive_handshake Toy.w_plain_in_two =
         (Raise (AuthMsgTooShort (len (available (reader (conn Toy.w_plain_in_two))))),
          world_after Toy.w_plain_in_two r1 [Reader_read ENCRYPTED_AUTH_MSG_LEN])
       /\ pending (reader (conn Toy.w_plain_in_two))
          = available (reader (conn Toy.w_plain_in_two)) ++ pending r1.
Proof.
  assert (H1 : len (available (reader (conn Toy.w_plain_in_two)))
               < ENCRYPTED_AUTH_MSG_LEN) by (vm_compute; reflexivity).
  assert (H2 : available (reader (conn Toy.w_plain_in_two)) <> []
               \/ at_end (reader (conn Toy.w_plain_in_two)) = Eof)
    by (left; vm_compute; discriminate).
  exact (conj H1 (conj H2
    (short_first_read_is_length_error Toy.w_plain_in_two H1 H2))).
Defined.

(** The plain message with three more bytes behind it. *)
Lemma plain_message_leaves_the_rest_unread_witness :
  0 < ENCRYPTED_AUTH_MSG_LEN
  /\ buffer (reader (conn Toy.w_plain_followed)) = Toy.auth_plain ++ Toy.first_frame
  /\ len Toy.auth_plain = ENCRYPTED_AUTH_MSG_LEN
  /\ decode_result Toy.auth_plain (privkey (self Toy.w_plain_followed))
     = Return (Toy.ephemeral_pubkey, Toy.initiator_nonce, Toy.initiator_pubkey)
  /\ (receive_handshake Toy.w_plain_followed =
        reply_and_register (privkey (self Toy.w_plain_followed))
          ((Toy.ephemeral_pubkey, Toy.initiator_nonce, Toy.initiator_pubkey),
           Toy.auth_plain)
          (world_after Toy.w_plain_followed
             (mkReader Toy.first_frame
                (incoming (reader (conn Toy.w_plain_followed)))
                (at_end (reader (conn Toy.w_plain_followed))))
             (Reader_read ENCRYPTED_AUTH_MSG_LEN
                :: decode_calls Toy.auth_plain (privkey (self Toy.w_plain_followed))))
      /\ reader (conn (snd (receive_handshake Toy.w_plain_followed)))
         = mkReader Toy.first_frame
             (incoming (reader (conn Toy.w_plain_followed)))
             (at_end (reader (conn Toy.w_plain_followed)))).
Proof.
  assert (H1 : 0 < ENCRYPTED_AUTH_MSG_LEN) by reflexivity.
  assert (H2 : buffer (reader (conn Toy.w_plain_followed))
               = Toy.auth_plain ++ Toy.first_frame) by reflexivity.
  assert (H3 : len Toy.auth_plain = ENCRYPTED_AUTH_MSG_LEN)
    by (vm_compute; reflexivity).
  assert (H4 : decode_result Toy.auth_plain (privkey (self Toy.w_plain_followed))
               = Return (Toy.ephemeral_pubkey, Toy.initiator_nonce,
                         Toy.initiator_pubkey)) by (vm_compute; reflexivity).
  exact (conj H1 (conj H2 (conj H3 (conj H4
    (plain_message_leaves_the_rest_unread Toy.w_plain_followed Toy.auth_plain
       Toy.first_frame _ H1 H2 H3 H4))))).
Defined.

(** The extended message of 357 bytes with three more bytes behind it. *)
Lemma sized_extended_message_after_plain_attempt_witness :
  2 <= ENCRYPTED_AUTH_MSG_LEN
  /\ buffer (reader (conn Toy.w_eip8_followed))
     = Toy.auth_eip8_sized ++ Toy.first_frame
  /\ ENCRYPTED_AUTH_MSG_LEN < len Toy.auth_eip8_sized
  /\ big_endian_to_int (firstn 2 Toy.auth_eip8_sized) + 2 = len Toy.auth_eip8_sized
  /\ (let k := privkey (self Toy.w_eip8_followed) in
      let head := firstn (Z.to_nat ENCRYPTED_AUTH_MSG_LEN) Toy.auth_eip8_sized in
      let inc := incoming (reader (conn Toy.w_eip8_followed)) in
      let after_head :=
        mkReader (skipn (Z.to_nat ENCRYPTED_AUTH_MSG_LEN) Toy.auth_eip8_sized
                    ++ Toy.first_frame) inc
                 (at_end (reader (conn Toy.w_eip8_followed))) in
      let rest := mkReader Toy.first_frame inc
                    (at_end (reader (conn Toy.w_eip8_followed))) in
      let first := Reader_read ENCRYPTED_AUTH_MSG_LEN :: decode_calls head k in
      let ev := first
                  ++ Reader_read (len Toy.auth_eip8_sized - ENCRYPTED_AUTH_MSG_LEN)
                  :: decode_calls Toy.auth_eip8_sized k in
      decoder_call head k = Call_decode_auth_plain head k
      /\ decoder_call Toy.auth_eip8_sized k
         = Call_decode_auth_eip8 Toy.auth_eip8_sized k
      /\ receive_handshake Toy.w_eip8_followed =
           match decode_result head k with
           | Return decoded =>
               reply_and_register k (decoded, head)
                 (world_after Toy.w_eip8_followed after_head first)
           | Raise DecryptionError =>
               match decode_result Toy.auth_eip8_sized k with
               | Return decoded =>
                   reply_and_register k (decoded, Toy.auth_eip8_sized)
                     (world_after Toy.w_eip8_followed rest ev)
               | Raise e => (Raise e, world_after Toy.w_eip8_followed rest ev)
               | Blocked => (Blocked, world_after Toy.w_eip8_followed rest ev)
               end
           | Raise e => (Raise e, world_after Toy.w_eip8_followed after_head first)
           | Blocked => (Blocked, world_after Toy.w_eip8_followed after_head first)
           end).
Proof.
  assert (H1 : 2 <= ENCRYPTED_AUTH_MSG_LEN) by (vm_compute; discriminate).
  assert (H2 : buffer (reader (conn Toy.w_eip8_followed))
               = Toy.auth_eip8_sized ++ Toy.first_frame) by reflexivity.
  assert (H3 : ENCRYPTED_AUTH_MSG_LEN < len Toy.auth_eip8_sized)
    by (vm_compute; reflexivity).
  assert (H4 : big_endian_to_int (firstn 2 Toy.auth_eip8_sized) + 2
               = len Toy.auth_eip8_sized) by (vm_compute; reflexivity).
  exact (conj H1 (conj H2 (conj H3 (conj H4
    (sized_extended_message_after_plain_attempt Toy.w_eip8_followed
       Toy.auth_eip8_sized Toy.first_frame H1 H2 H3 H4))))).
Defined.



(** The plain handshake returns: the peer it has registered. *)
Lemma returned_handshake_witness :
  receive_handshake Toy.w_plain = (Return tt, snd (receive_handshake Toy.w_plain))
  /\ exists msg ephem nonce pub ip port rest responder ack_msg ack
            aes mac egress ingress,
       let w := Toy.w_plain in
       let w' := snd (receive_handshake Toy.w_plain) in
       let k := privkey (self w) in
       let rn := map (os_random (conn w)) (seq 0 (Z.to_nat HASH_LEN)) in
       let remote := mkNode pub (mkAddress ip port) in
       let peer := mkETHPeer remote k (fd (conn w)) (fd (conn w))
                             aes mac egress ingress
                             (chaindb (self w)) (network_id (self w)) in
       pending (reader (conn w)) = msg ++ pending (reader (conn w'))
       /\ decode_result msg k = Return (ephem, nonce, pub)
       /\ peername (writer (conn w)) = Some (ip, port, rest)
       /\ HandshakeResponder remote k = Ok responder
       /\ create_auth_ack_message responder rn = Ok ack_msg
       /\ encrypt_auth_ack_message responder ack_msg = Ok ack
       /\ derive_secrets responder nonce rn ephem msg ack
          = Ok (aes, mac, egress, ingress)
       /\ writer (conn w') = wrote (writer (conn w)) ack
       /\ self w' = set_peer_pool
                      (mkPeerPool (connected_nodes (peer_pool (self w)) ++ [peer])
                                  (pool_stopped (peer_pool (self w))))
                      (self w).
Proof.
  assert (H : receive_handshake Toy.w_plain
              = (Return tt, snd (receive_handshake Toy.w_plain)))
    by (vm_compute; reflexivity).
  exact (conj H (returned_handshake_has_registered_the_peer Toy.w_plain _ H)).
Defined.


(** A connection that is reset while the ack is flushed. *)
Lemma failed_drain_witness :
  drain_fault (writer (conn Toy.w_reset)) = Some (OtherError "ConnectionResetError")
  /\ exists ev,
       let (out, w') := receive_handshake Toy.w_reset in
       trace w' = trace Toy.w_reset ++ ev
       /\ is_return out = false
       /\ self w' = self Toy.w_reset
       /\ filter is_derive_call ev = []
       /\ filter is_peer_event ev = []
       /\ match filter is_write_call ev with
          | [] => writer (conn w') = writer (conn Toy.w_reset)
          | _ =>
              out = Raise (OtherError "ConnectionResetError")
              /\ exists pre ack,
                   ev = pre ++ [Writer_write ack; Writer_drain]
                   /\ writer (conn w') = wrote (writer (conn Toy.w_reset)) ack
          end.
Proof.
  assert (H : drain_fault (writer (conn Toy.w_reset))
              = Some (OtherError "ConnectionResetError")) by reflexivity.
  exact (conj H (failed_drain_stops_before_derivation Toy.w_reset _ H)).
Defined.

(** The runs above end as the properties say: the nameless connection
    raises [TypeError] and the reset one the exception of [drain], after
    the ack was written. *)
Example reply_failures_run :
  fst (receive_handshake Toy.w_nameless) = Raise (OtherError "TypeError")
  /\ fst (receive_handshake Toy.w_reset) = Raise (OtherError "ConnectionResetError")
  /\ written (writer (conn (snd (receive_handshake Toy.w_reset)))) <> []
  /\ connected_nodes (peer_pool (self (snd (receive_handshake Toy.w_reset)))) = [].
Proof. vm_compute. repeat split; discriminate. Qed.
